(** * Line-annotation tracking and range consolidation

    A shallow embedding of the collaboration engine of the editor demo:
    - [Marker.js]: the annotation ranges of one side, merge-on-insert
      ([show]) and the consolidation pass ([consolidateAllMarkers]);
    - [GutterIcons.js], [ChangeBlock.js]: re-anchoring by content and the
      block split;
    - [useRealTimeCollaboration.js]: the burst detectors, the grouping of
      line facts into change blocks and the positional merge of two buffers.

    JavaScript [Map]s are kept as insertion-ordered association lists, DOM
    elements as cells of a store addressed by their index, line numbers as
    [Z], and text as [string]. *)

From Stdlib Require Import ZArith Lia Ascii String DecimalString DecimalNat.
From stdpp Require Import base list strings sorting.

Local Open Scope Z_scope.

(* ================================================================== *)
(** * JavaScript values used by the engine *)
(* ================================================================== *)

(** ** Strings: [split('\n')] and [join('\n')] *)

Module Js.

Definition nl : ascii := Ascii.ascii_of_nat 10.

(** [s.split('\n')]: never empty, [''] for the empty string. *)
Fixpoint split (s : string) : list string :=
  match s with
  | EmptyString => [EmptyString]
  | String c s' =>
      if Ascii.eqb c nl then EmptyString :: split s'
      else match split s' with
           | [] => [String c EmptyString]
           | l :: ls => String c l :: ls
           end
  end.

(** [lines.join('\n')]. *)
Fixpoint join (ls : list string) : string :=
  match ls with
  | [] => EmptyString
  | l :: ls' =>
      match ls' with
      | [] => l
      | _ :: _ => l +:+ String nl (join ls')
      end
  end.

(** [lines[i]] read as text: [undefined] (index out of range) is rendered
    as the empty string, which is what both [join] and [x || ''] make of
    it. *)
Definition line_at (lines : list string) (i : nat) : string :=
  default EmptyString (lines !! i).

(** [lines[i - 1] || ''] for a 1-based line number that may be anything. *)
Definition line_or_empty (lines : list string) (lineNumber : Z) : string :=
  if lineNumber <? 1 then EmptyString
  else line_at lines (Z.to_nat (lineNumber - 1)).

(** [lines.findIndex(line => line === x)], [None] for [-1]; [x] is
    [None] when the searched value is [undefined]. *)
Fixpoint findIndex (x : option string) (lines : list string) : option nat :=
  match lines with
  | [] => None
  | l :: ls =>
      if decide (Some l = x) then Some 0%nat
      else S <$> findIndex x ls
  end.

(** A string is truthy when it is not empty. *)
Definition truthy (s : string) : bool :=
  match s with EmptyString => false | String _ _ => true end.

Definition no_newline (s : string) : Prop :=
  forall c, In c (list_ascii_of_string s) -> c <> nl.

End Js.

(** ** Insertion-ordered maps ([new Map()]) *)

Module JsMap.
Section ops.
Context {K V : Type} `{EqDecision K}.

Definition t := list (K * V).

Fixpoint get (k : K) (m : list (K * V)) : option V :=
  match m with
  | [] => None
  | (k', v) :: m' => if decide (k' = k) then Some v else get k m'
  end.

Definition has (k : K) (m : list (K * V)) : bool :=
  match get k m with Some _ => true | None => false end.

(** [m.delete(k)] *)
Fixpoint delete (k : K) (m : list (K * V)) : list (K * V) :=
  match m with
  | [] => []
  | (k', v) :: m' =>
      if decide (k' = k) then delete k m' else (k', v) :: delete k m'
  end.

(** [m.set(k, v)]: an existing key keeps its place in the iteration
    order, a new key goes last. *)
Fixpoint set (k : K) (v : V) (m : list (K * V)) : list (K * V) :=
  match m with
  | [] => [(k, v)]
  | (k', v') :: m' =>
      if decide (k' = k) then (k, v) :: m' else (k', v') :: set k v m'
  end.

(** [Array.from(m.values())] *)
Definition values (m : list (K * V)) : list V := map snd m.
Definition keys (m : list (K * V)) : list K := map fst m.
End ops.
End JsMap.

(** ** [Array.prototype.sort] with a numeric key: stable *)

Section sorting.
Context {A : Type} (key : A -> Z).

Fixpoint insert_sorted (x : A) (l : list A) : list A :=
  match l with
  | [] => [x]
  | y :: l' =>
      if key x <? key y then x :: y :: l'
      else y :: insert_sorted x l'
  end.

(** [l.sort((a, b) => key(a) - key(b))] *)
Definition sort_by (l : list A) : list A :=
  fold_left (fun acc x => insert_sorted x acc) l [].

(** The order the sort establishes. *)
Definition key_le (a b : A) : Prop := key a <= key b.
End sorting.

(* ================================================================== *)
(** * Content Reconciler: [mergeCode] *)
(* ================================================================== *)

(** The body of the [for] loop of [mergeCode] at index [i]: the line that
    is pushed on [mergedLines]. *)
Definition mergeCode_line (targetLines sourceLines : list string) (i : nat)
  : string :=
  if (i <? length targetLines)%nat && (i <? length sourceLines)%nat then
    if negb (String.eqb (Js.line_at targetLines i) (Js.line_at sourceLines i))
    then Js.line_at sourceLines i
    else Js.line_at targetLines i
  else if (i <? length sourceLines)%nat then Js.line_at sourceLines i
  else Js.line_at targetLines i.

(** [mergedLines] after the loop [for (i = 0; i < maxLines; i++)]. *)
Definition mergeCode_lines (targetLines sourceLines : list string)
  : list string :=
  let maxLines := Nat.max (length targetLines) (length sourceLines) in
  map (mergeCode_line targetLines sourceLines) (seq 0 maxLines).

Definition mergeCode (targetContent sourceContent : string) : string :=
  let targetLines := Js.split targetContent in
  let sourceLines := Js.split sourceContent in
  Js.join (mergeCode_lines targetLines sourceLines).

(* ================================================================== *)
(** * Shared vocabulary *)
(* ================================================================== *)

(** [changeType]: ['added'] or ['edited']. *)
Inductive ChangeKind := added | edited.

#[global] Instance ChangeKind_eq_dec : EqDecision ChangeKind.
Proof. solve_decision. Defined.

(** [for (let line = a; line <= b; line++)]: the lines visited. *)
Definition lines_from_to (a b : Z) : list Z :=
  map (fun k => a + Z.of_nat k) (seq 0 (Z.to_nat (b - a + 1))).

(* ================================================================== *)
(** * Range Consolidator: [Marker] *)
(* ================================================================== *)

(** The [dataset] of a marker element.  [line] and [endLine] are written
    as numbers and read back with [parseInt]; [show] always writes
    [endLine], the readers still fall back on [line] when it is absent.
    The label and the pixel geometry of the element are rendering and are
    left out. *)
Record MarkerEl := mkMarkerEl {
  ds_line : Z;
  ds_endLine : option Z;
  ds_rawUser : string;
  ds_changeType : ChangeKind
}.

(** A [Marker] instance: the elements ever created (an element is known by
    its index, so two references to one element see the same [dataset]),
    the map [persistentMarkers] from start line to element, and whether the
    rendering surface ([.code-editor]) is found. *)
Record Marker := mkMarker {
  editorFound : bool;
  elems : list MarkerEl;
  persistentMarkers : list (Z * nat)
}.

Definition exStartOf (m : MarkerEl) : Z := ds_line m.
(** [parseInt(m.dataset.endLine || exStart)] *)
Definition exEndOf (m : MarkerEl) : Z := default (ds_line m) (ds_endLine m).

(** [updateMarkerRange(marker, newStart, newEnd)] *)
Definition updateMarkerRange (marker : nat) (newStart newEnd : Z)
    (st : Marker) : Marker :=
  match elems st !! marker with
  | None => st
  | Some el =>
      let oldStart := ds_line el in
      let pm := JsMap.delete oldStart (persistentMarkers st) in
      let el' := mkMarkerEl newStart (Some newEnd)
                            (ds_rawUser el) (ds_changeType el) in
      {| editorFound := editorFound st;
         elems := <[marker := el']> (elems st);
         persistentMarkers := JsMap.set newStart marker pm |}
  end.

(** The body of the loop of [consolidateAllMarkers]: [fuel] bounds the
    number of iterations, [markers] is the local sorted array and [i] the
    loop index.  On a merge the source decrements [i], removes
    [markers[i + 2]] (the consumed [next]) and the loop header increments [i]
    again: the same [i] is examined against the shortened array. *)
Fixpoint consolidate_for (fuel : nat) (markers : list nat) (i : nat)
    (st : Marker) : Marker :=
  match fuel with
  | O => st
  | S fuel' =>
      if (i <? length markers - 1)%nat then
        match markers !! i, markers !! S i with
        | Some curr, Some next =>
            match elems st !! curr, elems st !! next with
            | Some c, Some n =>
                let currStart := exStartOf c in
                let currEnd := exEndOf c in
                let nextStart := exStartOf n in
                let nextEnd := exEndOf n in
                if bool_decide (ds_rawUser c = ds_rawUser n)
                   && (currEnd + 1 =? nextStart) then
                  let st1 :=
                    {| editorFound := editorFound st;
                       elems := elems st;
                       persistentMarkers :=
                         JsMap.delete nextStart (persistentMarkers st) |} in
                  let st2 := updateMarkerRange curr currStart nextEnd st1 in
                  consolidate_for fuel' (list_delete (S i) markers) i st2
                else consolidate_for fuel' markers (S i) st
            | _, _ => st
            end
        | _, _ => st
        end
      else st
  end.

(** The sort key of [consolidateAllMarkers]: [parseInt(a.dataset.line)]. *)
Definition line_of (els : list MarkerEl) (marker : nat) : Z :=
  match els !! marker with Some el => ds_line el | None => 0 end.

(** [consolidateAllMarkers()] *)
Definition consolidateAllMarkers (st : Marker) : Marker :=
  let markers :=
    sort_by (line_of (elems st)) (JsMap.values (persistentMarkers st)) in
  if (length markers <? 2)%nat then st
  else consolidate_for (length markers) markers 0 st.

(** What the search loop of [show] finds: the element to update and its
    new range, or nothing. *)
Fixpoint show_search (els : list MarkerEl) (markers : list nat)
    (userName : string) (changeType : ChangeKind)
    (currentStart currentEnd : Z) : option (nat * Z * Z) :=
  match markers with
  | [] => None
  | existingMarker :: rest =>
      match els !! existingMarker with
      | None =>
          show_search els rest userName changeType currentStart currentEnd
      | Some ex =>
          let exStart := exStartOf ex in
          let exEnd := exEndOf ex in
          if bool_decide (ds_rawUser ex = userName)
             && bool_decide (ds_changeType ex = changeType) then
            if exEnd + 1 =? currentStart then
              Some (existingMarker, exStart, currentEnd)
            else if currentEnd + 1 =? exStart then
              Some (existingMarker, currentStart, exEnd)
            else if ((currentStart >=? exStart) && (currentStart <=? exEnd))
                    || ((currentEnd >=? exStart) && (currentEnd <=? exEnd))
            then
              Some (existingMarker, Z.min exStart currentStart,
                    Z.max exEnd currentEnd)
            else show_search els rest userName changeType
                             currentStart currentEnd
          else show_search els rest userName changeType
                           currentStart currentEnd
      end
  end.

(** [endLine ? endLine : lineNumber]: [null] and [0] are falsy. *)
Definition currentEndOf (lineNumber : Z) (endLine : option Z) : Z :=
  match endLine with
  | Some e => if e =? 0 then lineNumber else e
  | None => lineNumber
  end.

(** [show(lineNumber, userName, persistent, changeType, endLine)];
    [persistent] is not read.  The line number is a number here: a [null]
    line number returns where a line number below 1 does. *)
Definition show (lineNumber : Z) (userName : string)
    (changeType : ChangeKind) (endLine : option Z) (st : Marker) : Marker :=
  if lineNumber <? 1 then st
  else if negb (editorFound st) then st
  else
    let currentStart := lineNumber in
    let currentEnd := currentEndOf lineNumber endLine in
    let markers := JsMap.values (persistentMarkers st) in
    match show_search (elems st) markers userName changeType
                      currentStart currentEnd with
    | Some (existingMarker, newStart, newEnd) =>
        consolidateAllMarkers
          (updateMarkerRange existingMarker newStart newEnd st)
    | None =>
        let marker := length (elems st) in
        {| editorFound := editorFound st;
           elems := elems st ++
                    [mkMarkerEl currentStart (Some currentEnd)
                                userName changeType];
           persistentMarkers :=
             JsMap.set currentStart marker (persistentMarkers st) |}
    end.

(** The annotation ranges held on a side, in the iteration order of
    [persistentMarkers]: [(start, end, author, kind)]. *)
Definition ranges (st : Marker) : list (Z * Z * string * ChangeKind) :=
  omap (fun marker =>
          el ← elems st !! marker;
          Some (exStartOf el, exEndOf el, ds_rawUser el, ds_changeType el))
       (JsMap.values (persistentMarkers st)).



Definition emptyMarker : Marker :=
  {| editorFound := true; elems := []; persistentMarkers := [] |}.

(* ================================================================== *)
(** * [GutterIcons]: re-anchoring by content *)
(* ================================================================== *)

(** Keys of the [icons] map: a line number for a single-line icon, the
    strings [`${start}-${end}`] and [`${start}-${end}-end`] for the two
    icons of a range. *)
Inductive IconKey :=
| KLine (lineNumber : Z)
| KRange (startLine endLine : Z)
| KRangeEnd (startLine endLine : Z).

#[global] Instance IconKey_eq_dec : EqDecision IconKey.
Proof. solve_decision. Defined.

Record IconEl := mkIconEl {
  ic_line : Z;
  ic_endLine : option Z;
  ic_userName : string;
  ic_changeType : ChangeKind
}.

Record GutterIcons := mkGutterIcons {
  iconEls : list IconEl;
  icons : list (IconKey * nat)
}.

(** One pending move of [iconsToUpdate]: [{ icon, oldLine, newLine }]. *)
Record IconMove := mkIconMove {
  mv_icon : nat;
  mv_oldLine : Z;
  mv_newLine : Z
}.

(** [oldLines[lineNumber - 1]], [None] for [undefined]. *)
Definition old_line_content (oldLines : list string) (lineNumber : Z)
  : option string :=
  if lineNumber <? 1 then None
  else oldLines !! Z.to_nat (lineNumber - 1).

(** The first [forEach] of [GutterIcons.adjustByContent], for one entry.
    A string key compared with [oldLines.length] converts to [NaN], so the
    test fails and range icons are passed over. *)
Definition icon_move (oldLines newLines : list string)
    (entry : IconKey * nat) : option IconMove :=
  match entry with
  | (KLine lineNumber, icon) =>
      if lineNumber <=? Z.of_nat (length oldLines) then
        let oldLineContent := old_line_content oldLines lineNumber in
        match Js.findIndex oldLineContent newLines with
        | Some newLineIndex =>
            let newLineNumber := Z.of_nat newLineIndex + 1 in
            if bool_decide (newLineNumber <> lineNumber)
            then Some (mkIconMove icon lineNumber newLineNumber)
            else None
        | None => None
        end
      else None
  | (_, _) => None
  end.

(** The second [forEach]: [delete(oldLine)], write [dataset.line],
    [set(newLine, icon)]. *)
Definition apply_icon_move (g : GutterIcons) (mv : IconMove) : GutterIcons :=
  let icons1 := JsMap.delete (KLine (mv_oldLine mv)) (icons g) in
  let els :=
    match iconEls g !! mv_icon mv with
    | Some el =>
        <[mv_icon mv := mkIconEl (mv_newLine mv) (ic_endLine el)
                                 (ic_userName el) (ic_changeType el)]>
          (iconEls g)
    | None => iconEls g
    end in
  {| iconEls := els;
     icons := JsMap.set (KLine (mv_newLine mv)) (mv_icon mv) icons1 |}.

(** How a call ends: it returns, or [querySelector] raises a
    [SyntaxError] that leaves it. *)
Inductive Completion := Returned | SyntaxError.

(** [`span:nth-child(${key})`] is a selector when the key is a line
    number.  For the string keys of a range ([1-2], [1-2-end]) it is not,
    and [querySelector] raises a [SyntaxError]. *)
Definition selector_ok (key : IconKey) : bool :=
  match key with
  | KLine _ => true
  | KRange _ _ | KRangeEnd _ _ => false
  end.

(** [updatePositions()] recomputes the pixel position of every icon, in
    the iteration order of the map.  Pixel positions are not part of the
    state here; what is kept is how the call ends: it raises at the first
    key that gives no selector. *)
Definition GutterIcons_updatePositions (g : GutterIcons) : Completion :=
  if forallb selector_ok (JsMap.keys (icons g)) then Returned
  else SyntaxError.

(** [adjustByContent(oldLines, newLines)]: the outcome of the call and the
    state it leaves.  The moves are applied before [updatePositions()] is
    called, so they are in place also when that call raises. *)
Definition GutterIcons_adjustByContent (oldLines newLines : list string)
    (g : GutterIcons) : Completion * GutterIcons :=
  let iconsToUpdate := omap (icon_move oldLines newLines) (icons g) in
  let g' := fold_left apply_icon_move iconsToUpdate g in
  if (0 <? length iconsToUpdate)%nat
  then (GutterIcons_updatePositions g', g')
  else (Returned, g').

(* ================================================================== *)
(** * [ChangeBlock]: creation, split, re-anchoring *)
(* ================================================================== *)

(** The value stored in [blocks] under a block id (the DOM element of the
    block only mirrors these fields and is left out). *)
Record BlockData := mkBlockData {
  bd_startLine : Z;
  bd_endLine : Z;
  bd_userName : string;
  bd_changes : list string;
  bd_changeType : ChangeKind
}.

(** [remove(blockId)] *)
Definition ChangeBlock_remove (blockId : string)
    (blocks : list (string * BlockData)) : list (string * BlockData) :=
  match JsMap.get blockId blocks with
  | Some _ => JsMap.delete blockId blocks
  | None => blocks
  end.

(** [create(blockId, startLine, endLine, userName, changes, changeType)] *)
Definition ChangeBlock_create (blockId : string) (startLine endLine : Z)
    (userName : string) (changes : list string) (changeType : ChangeKind)
    (blocks : list (string * BlockData)) : list (string * BlockData) :=
  JsMap.set blockId
    (mkBlockData startLine endLine userName changes changeType)
    (ChangeBlock_remove blockId blocks).

(** [split(blockId, splitLine)]: the returned ids ([None] for [null]) and
    the map afterwards. *)
Definition ChangeBlock_split (blockId : string) (splitLine : Z)
    (blocks : list (string * BlockData))
  : option (string * string) * list (string * BlockData) :=
  match JsMap.get blockId blocks with
  | None => (None, blocks)
  | Some blockData =>
      let startLine := bd_startLine blockData in
      let endLine := bd_endLine blockData in
      let userName := bd_userName blockData in
      let changes := bd_changes blockData in
      let changeType := bd_changeType blockData in
      if (splitLine <=? startLine) || (splitLine >=? endLine) then
        (None, blocks)
      else
        let relativeSplit := Z.to_nat (splitLine - startLine) in
        let firstPartChanges := take relativeSplit changes in
        let secondPartChanges := drop relativeSplit changes in
        let firstBlockId := blockId +:+ "-part1" in
        let secondBlockId := blockId +:+ "-part2" in
        let b1 := ChangeBlock_create firstBlockId startLine (splitLine - 1)
                    userName firstPartChanges changeType blocks in
        let b2 := ChangeBlock_create secondBlockId splitLine endLine
                    userName secondPartChanges changeType b1 in
        (Some (firstBlockId, secondBlockId), ChangeBlock_remove blockId b2)
  end.

(** The first [forEach] of [ChangeBlock.adjustByContent], for one entry:
    the pending [{ blockId, newStartLine, newEndLine }]. *)
Definition block_move (newLines : list string)
    (entry : string * BlockData) : option (string * Z * Z) :=
  let '(blockId, blockData) := entry in
  let firstChange := bd_changes blockData !! 0%nat in
  match Js.findIndex firstChange newLines with
  | Some newStartIndex =>
      let newStartLine := Z.of_nat newStartIndex + 1 in
      let newEndLine :=
        newStartLine + Z.of_nat (length (bd_changes blockData)) - 1 in
      if bool_decide (newStartLine <> bd_startLine blockData)
         || bool_decide (newEndLine <> bd_endLine blockData)
      then Some (blockId, newStartLine, newEndLine)
      else None
  | None => None
  end.

(** The second [forEach]: the stored object is updated in place. *)
Definition apply_block_move (blocks : list (string * BlockData))
    (mv : string * Z * Z) : list (string * BlockData) :=
  let '(blockId, newStartLine, newEndLine) := mv in
  match JsMap.get blockId blocks with
  | Some blockData =>
      JsMap.set blockId
        (mkBlockData newStartLine newEndLine (bd_userName blockData)
                     (bd_changes blockData) (bd_changeType blockData))
        blocks
  | None => blocks
  end.

Definition ChangeBlock_adjustByContent (oldLines newLines : list string)
    (blocks : list (string * BlockData)) : list (string * BlockData) :=
  let blocksToUpdate := omap (block_move newLines) blocks in
  fold_left apply_block_move blocksToUpdate blocks.

(* ================================================================== *)
(** * LineFact store, reservations and block grouping *)
(* ================================================================== *)

(** [changeData]: the fact recorded for a line. *)
Record LineFact := mkLineFact {
  lf_changeType : ChangeKind;
  lf_userName : string;
  lf_lineNumber : Z;
  lf_lineContent : string;
  lf_timestamp : Z
}.

Record Reservation := mkReservation {
  rv_userName : string;
  rv_timestamp : Z
}.

(** The result of [checkOverlap]: [None] for [{ hasConflict: false }]. *)
Definition checkOverlap (lineNumber : Z) (userName : string)
    (reservations : list (Z * Reservation)) : option Reservation :=
  match JsMap.get lineNumber reservations with
  | Some reservation =>
      if bool_decide (rv_userName reservation <> userName)
      then Some reservation else None
  | None => None
  end.

(** [reserveTerritory(lineNumber, userName, reservations)], the clock
    reading being [now]. *)
Definition reserveTerritory (now : Z) (userName : string)
    (reservations : list (Z * Reservation)) (lineNumber : Z)
  : list (Z * Reservation) :=
  JsMap.set lineNumber (mkReservation userName now) reservations.

(** A block built by [createChangeBlocks]. *)
Record Block := mkBlock {
  blockId : string;
  startLine : Z;
  endLine : Z;
  changes : list string;
  changeType : ChangeKind
}.

Definition nat_to_string (n : nat) : string :=
  DecimalString.NilEmpty.string_of_uint (Nat.to_uint n).
Definition Z_to_string (z : Z) : string :=
  DecimalString.NilEmpty.string_of_int (Z.to_int z).

(** [`${userName}-block-${Date.now()}-${blocks.length}`] *)
Definition new_blockId (userName : string) (now : Z) (blocksLength : nat)
  : string :=
  userName +:+ "-block-" +:+ Z_to_string now +:+ "-"
           +:+ nat_to_string blocksLength.

Definition new_block (userName : string) (now : Z) (blocksLength : nat)
    (change : LineFact) : Block :=
  mkBlock (new_blockId userName now blocksLength)
          (lf_lineNumber change) (lf_lineNumber change)
          [lf_lineContent change] (lf_changeType change).

(** The callback of [sortedChanges.forEach] in [createChangeBlocks], on
    the pair ([blocks], [currentBlock]). *)
Definition group_step (userName : string) (now : Z)
    (acc : list Block * option Block) (change : LineFact)
  : list Block * option Block :=
  let '(blocks, currentBlock) := acc in
  match currentBlock with
  | None => (blocks, Some (new_block userName now (length blocks) change))
  | Some cb =>
      if lf_lineNumber change =? endLine cb + 1 then
        (blocks,
         Some (mkBlock (blockId cb) (startLine cb) (lf_lineNumber change)
                       (changes cb ++ [lf_lineContent change])
                       (if bool_decide (changeType cb <> lf_changeType change)
                        then edited else changeType cb)))
      else
        let blocks' := blocks ++ [cb] in
        (blocks', Some (new_block userName now (length blocks') change))
  end.

(** [createChangeBlocks(changes, userName)]; [now] is the reading of
    [Date.now()] used in the block ids. *)
Definition createChangeBlocks (now : Z) (facts : list LineFact)
    (userName : string) : list Block :=
  match facts with
  | [] => []
  | _ :: _ =>
      let sortedChanges := sort_by lf_lineNumber facts in
      let '(blocks, currentBlock) :=
        fold_left (group_step userName now) sortedChanges ([], None) in
      match currentBlock with
      | Some cb => blocks ++ [cb]
      | None => blocks
      end
  end.

(* ================================================================== *)
(** * Burst Detector *)
(* ================================================================== *)

(** An entry of [recentAdditions] / [recentEdits]. *)
Record Recent := mkRecent {
  rc_line : Z;
  rc_content : string;
  rc_timestamp : Z
}.

(** What a detector returns: [{ isRange: false }] or
    [{ isRange: true, startLine, endLine }] (the insertion detector adds
    [shiftAmount], which is [endLine - startLine + 1]). *)
Inductive RangeResult :=
| NotRange
| IsRange (startLine endLine : Z).

(** The state of one side that the detectors and the line handlers write:
    both windows, the fact store [changes], the reservation ledger and the
    side's [Marker].  The gutter icons receive the same [show] calls as the
    marker and are not part of this state. *)
Record Side := mkSide {
  recentAdditions : list Recent;
  recentEdits : list Recent;
  facts : list (Z * LineFact);
  reservations : list (Z * Reservation);
  marker : Marker
}.

(** [recent.filter(a => now - a.timestamp < 500)] *)
Definition prune (now : Z) (recent : list Recent) : list Recent :=
  filter (fun a => now - rc_timestamp a < 500) recent.

(** The loop collecting [consecutive], after the first entry: entries are
    taken while each line is the previous line plus one. *)
Fixpoint consecutive_after (prevLine : Z) (recent : list Recent)
  : list Recent :=
  match recent with
  | [] => []
  | r :: rest =>
      if rc_line r =? prevLine + 1
      then r :: consecutive_after (rc_line r) rest
      else []
  end.

Definition consecutive_of (recent : list Recent) : list Recent :=
  match recent with
  | [] => []
  | r :: rest => r :: consecutive_after (rc_line r) rest
  end.

(** [rangeEnd] after the loop: the line of the last collected entry. *)
Definition rangeEnd_of (rangeStart : Z) (consecutive : list Recent) : Z :=
  match last consecutive with
  | Some r => rc_line r
  | None => rangeStart
  end.

(** [consecutive.forEach(... changes.set(add.line, changeData))] *)
Definition record_facts (kind : ChangeKind) (userName : string)
    (consecutive : list Recent) (facts : list (Z * LineFact))
  : list (Z * LineFact) :=
  fold_left
    (fun acc r =>
       JsMap.set (rc_line r)
         (mkLineFact kind userName (rc_line r) (rc_content r)
                     (rc_timestamp r))
         acc)
    consecutive facts.

(** The loop of [detectRangeEdit] removing the individual markers of the
    range from [persistentMarkers]. *)
Definition remove_markers_in (rangeStart rangeEnd : Z) (m : Marker)
  : Marker :=
  {| editorFound := editorFound m;
     elems := elems m;
     persistentMarkers :=
       fold_left
         (fun pm line =>
            if JsMap.has line pm then JsMap.delete line pm else pm)
         (lines_from_to rangeStart rangeEnd) (persistentMarkers m) |}.

(** [detectRangeInsertion(currentLine, content, baselineContent, ...)].
    [ts] is the clock reading stored in the new entry, [now] the reading
    used from the pruning on. *)
Definition detectRangeInsertion (ts now : Z) (currentLine : Z)
    (content baselineContent : string) (userName : string) (s : Side)
  : RangeResult * Side :=
  let currentLines := Js.split content in
  let baselineLines :=
    if Js.truthy baselineContent then Js.split baselineContent else [] in
  let isInsertionBetween :=
    Js.truthy baselineContent
    && (0 <? length baselineLines)%nat
    && (currentLine <=? Z.of_nat (length baselineLines)) in
  let addition :=
    mkRecent currentLine (Js.line_or_empty currentLines currentLine) ts in
  let recent := prune now (recentAdditions s ++ [addition]) in
  let retained :=
    mkSide recent (recentEdits s) (facts s) (reservations s) (marker s) in
  if (1 <? length recent)%nat then
    let sorted := sort_by rc_line recent in
    let rangeStart := match sorted with r :: _ => rc_line r | [] => 0 end in
    let consecutive := consecutive_of sorted in
    let rangeEnd := rangeEnd_of rangeStart consecutive in
    if (2 <=? length consecutive)%nat && (rangeStart <? rangeEnd) then
      if isInsertionBetween
         && (rangeStart <=? Z.of_nat (length baselineLines) + 1) then
        (IsRange rangeStart rangeEnd,
         mkSide []
                (recentEdits s)
                (record_facts added userName consecutive (facts s))
                (fold_left (reserveTerritory now userName)
                           (lines_from_to rangeStart rangeEnd)
                           (reservations s))
                (show rangeStart userName added (Some rangeEnd) (marker s)))
      else (NotRange, retained)
    else (NotRange, retained)
  else (NotRange, retained).

(** [detectRangeEdit(currentLine, content, baselineContent, ...)] *)
Definition detectRangeEdit (ts now : Z) (currentLine : Z)
    (content baselineContent : string) (userName : string) (s : Side)
  : RangeResult * Side :=
  let currentLines := Js.split content in
  let edit :=
    mkRecent currentLine (Js.line_or_empty currentLines currentLine) ts in
  let recent := prune now (recentEdits s ++ [edit]) in
  let retained :=
    mkSide (recentAdditions s) recent (facts s) (reservations s) (marker s) in
  if (1 <? length recent)%nat then
    let sorted := sort_by rc_line recent in
    let rangeStart := match sorted with r :: _ => rc_line r | [] => 0 end in
    let consecutive := consecutive_of sorted in
    let rangeEnd := rangeEnd_of rangeStart consecutive in
    if (2 <=? length consecutive)%nat && (rangeStart <? rangeEnd) then
      (IsRange rangeStart rangeEnd,
       mkSide (recentAdditions s)
              []
              (record_facts edited userName consecutive (facts s))
              (fold_left (reserveTerritory now userName)
                         (lines_from_to rangeStart rangeEnd)
                         (reservations s))
              (show rangeStart userName edited (Some rangeEnd)
                    (remove_markers_in rangeStart rangeEnd (marker s))))
    else (NotRange, retained)
  else (NotRange, retained).

(** The single-line branch of the handlers [onLineAdded] / [onLineEdited]:
    reserve the line, record its fact, show its marker. *)
Definition single_line_event (kind : ChangeKind) (now : Z) (line : Z)
    (content : string) (userName : string) (s : Side) : Side :=
  let lines := Js.split content in
  let lineContent := Js.line_or_empty lines line in
  mkSide (recentAdditions s) (recentEdits s)
         (JsMap.set line (mkLineFact kind userName line lineContent now)
                    (facts s))
         (reserveTerritory now userName (reservations s) line)
         (show line userName kind None (marker s)).


(** The engine part of [onLineEdited]. *)
Definition onLineEdited (ts now : Z) (line : Z)
    (content baselineContent : string) (userName : string) (s : Side)
  : RangeResult * Side :=
  let '(rangeResult, s1) :=
    detectRangeEdit ts now line content baselineContent userName s in
  match rangeResult with
  | IsRange _ _ => (rangeResult, s1)
  | NotRange =>
      (rangeResult, single_line_event edited now line content userName s1)
  end.

(* ================================================================== *)
(** * Specification vocabulary *)
(* ================================================================== *)

(** ** Block grouping, in the words of the specification *)

(** A run: each fact's line number is exactly one more than the one
    before it. *)
Definition is_run (run : list LineFact) : Prop :=
  forall i a b, run !! i = Some a -> run !! S i = Some b ->
                lf_lineNumber b = lf_lineNumber a + 1.

(** The kind of the block of a run: [added] when every fact of the run is
    an addition, [edited] otherwise (a uniform run of edits, or a mixed
    run). *)
Definition run_kind (run : list LineFact) : ChangeKind :=
  if forallb (fun f => bool_decide (lf_changeType f = added)) run
  then added else edited.

(** A block packages a run: first and last line, the contents in order,
    and the kind of the run. *)
Definition block_of_run (run : list LineFact) (b : Block) : Prop :=
  (head run ≫= fun f => Some (lf_lineNumber f)) = Some (startLine b)
  /\ (last run ≫= fun f => Some (lf_lineNumber f)) = Some (endLine b)
  /\ changes b = map lf_lineContent run
  /\ changeType b = run_kind run.

(** Two neighbouring runs are separated by a gap other than one. *)
Definition runs_separated (runs : list (list LineFact)) : Prop :=
  forall i r1 r2 a b,
    runs !! i = Some r1 -> runs !! S i = Some r2 ->
    last r1 = Some a -> head r2 = Some b ->
    lf_lineNumber b <> lf_lineNumber a + 1.

(** The runs of a list sorted by line number (used to exhibit them). *)
Fixpoint runs_from (cur : list LineFact) (lastLine : Z)
    (l : list LineFact) : list (list LineFact) :=
  match l with
  | [] => [cur]
  | f :: l' =>
      if lf_lineNumber f =? lastLine + 1
      then runs_from (cur ++ [f]) (lf_lineNumber f) l'
      else cur :: runs_from [f] (lf_lineNumber f) l'
  end.

Definition runs_of (l : list LineFact) : list (list LineFact) :=
  match l with
  | [] => []
  | f :: l' => runs_from [f] (lf_lineNumber f) l'
  end.

(** ** Merge-on-insert, in the words of the specification *)

(** The existing range belongs to the candidate's author and kind. *)
Definition same_owner (ex : MarkerEl) (userName : string)
    (kind : ChangeKind) : Prop :=
  ds_rawUser ex = userName /\ ds_changeType ex = kind.

(** Bottom-extend: [existing.end + 1 = candidate.start]. *)
Definition bottom_extend (ex : MarkerEl) (candStart : Z) : Prop :=
  exEndOf ex + 1 = candStart.

(** Top-extend: [candidate.end + 1 = existing.start]. *)
Definition top_extend (ex : MarkerEl) (candEnd : Z) : Prop :=
  candEnd + 1 = exStartOf ex.

(** Overlap: the candidate's start or end falls within the existing
    range. *)
Definition overlaps (ex : MarkerEl) (candStart candEnd : Z) : Prop :=
  exStartOf ex <= candStart <= exEndOf ex
  \/ exStartOf ex <= candEnd <= exEndOf ex.

(** An existing range of the candidate's author and kind matches one of
    the three cases. *)
Definition merge_case (ex : MarkerEl) (userName : string) (kind : ChangeKind)
    (candStart candEnd : Z) : Prop :=
  same_owner ex userName kind
  /\ (bottom_extend ex candStart \/ top_extend ex candEnd
      \/ overlaps ex candStart candEnd).


(** The end of the candidate range of a call: the end line when one is
    given, the start line when none (or 0) is given. *)
Definition candidate_end (lineNumber : Z) (endLine : option Z) (ce : Z)
  : Prop :=
  match endLine with
  | Some e => (e <> 0 /\ ce = e) \/ (e = 0 /\ ce = lineNumber)
  | None => ce = lineNumber
  end.

(** The element [marker] is held under the start line [s] as the range
    [s..e] of the author and kind. *)
Definition held_as (marker : nat) (s e : Z) (userName : string)
    (kind : ChangeKind) (st : Marker) : Prop :=
  JsMap.get s (persistentMarkers st) = Some marker
  /\ elems st !! marker = Some (mkMarkerEl s (Some e) userName kind).






(** ** Re-anchoring, in the words of the specification *)

(** The 1-based line at which a recorded content is first found in the
    new line sequence. *)
Definition anchor_target (content : option string) (newLines : list string)
  : option Z :=
  (fun j => Z.of_nat j + 1) <$> Js.findIndex content newLines.


(** A block re-anchored on its first recorded line; unchanged when that
    line is not found. *)
Definition block_reanchored (newLines : list string) (bd : BlockData)
  : BlockData :=
  match anchor_target (bd_changes bd !! 0%nat) newLines with
  | Some newStart =>
      mkBlockData newStart
                  (newStart + Z.of_nat (length (bd_changes bd)) - 1)
                  (bd_userName bd) (bd_changes bd) (bd_changeType bd)
  | None => bd
  end.

(** Where re-anchoring is to put an icon: a single-line icon whose old
    line content is found in the new text goes to the line of the first
    match; every other icon (content not found, or an icon of a range)
    keeps its key. *)
Definition icon_target (oldLines newLines : list string) (key : IconKey)
  : IconKey :=
  match key with
  | KLine lineNumber =>
      match anchor_target (old_line_content oldLines lineNumber) newLines with
      | Some newLine => KLine newLine
      | None => key
      end
  | KRange _ _ | KRangeEnd _ _ => key
  end.



(** Some icon is to move. *)
Definition move_pending (oldLines newLines : list string)
    (icons : list (IconKey * nat)) : Prop :=
  exists key icon,
    (key, icon) ∈ icons /\ icon_target oldLines newLines key <> key.

(** The key of an icon of a range, not a line number. *)
Definition is_range_key (key : IconKey) : Prop :=
  match key with
  | KLine _ => False
  | KRange _ _ | KRangeEnd _ _ => True
  end.

(** The gutter holds an icon of a range. *)
Definition range_icon_held (icons : list (IconKey * nat)) : Prop :=
  exists key icon, (key, icon) ∈ icons /\ is_range_key key.

(** ** Burst detection, in the words of the specification *)

(** Each successive entry's line is exactly one more than the previous. *)
Fixpoint chain_from (prevLine : Z) (run : list Recent) : Prop :=
  match run with
  | [] => True
  | r :: run' => rc_line r = prevLine + 1 /\ chain_from (rc_line r) run'
  end.

Definition is_consecutive (run : list Recent) : Prop :=
  match run with
  | [] => True
  | r :: run' => chain_from (rc_line r) run'
  end.





(** The extra test of the insertion detector: the baseline is not empty,
    the triggering line lies within it, and the run starts no later than
    one line past it. *)
Definition insertion_between (baselineContent : string)
    (currentLine : Z) (run : list Recent) : Prop :=
  baselineContent <> EmptyString
  /\ currentLine <= Z.of_nat (length (Js.split baselineContent))
  /\ forall a, head run = Some a ->
               rc_line a <= Z.of_nat (length (Js.split baselineContent)) + 1.

(* ================================================================== *)
(** * Further parts of the engine *)
(* ================================================================== *)

(** ** [CodeEditor]: which line event an input raises *)

(** The callback [handleContentChange] fires. *)
Inductive LineEvent :=
| LineAdded (line : Z)
| LineEdited (line : Z).

(** [getLineCount()] on the text [text]. *)
Definition getLineCount (text : string) : Z :=
  Z.max (Z.of_nat (length (Js.split text))) 1.

(** The tests of [handleContentChange]: [currentLine] is the active line
    ([None] for [null]), [previousContent] and [previousLineCount] the
    fields kept from the previous input. *)
Definition line_event (previousContent : string) (previousLineCount : Z)
    (currentContent : string) (currentLine : option Z) : option LineEvent :=
  match currentLine with
  | None => None
  | Some currentLine =>
      let currentLineCount := getLineCount currentContent in
      let previousLines := Js.split previousContent in
      let currentLines := Js.split currentContent in
      let changed :=
        bool_decide (old_line_content previousLines currentLine
                     <> old_line_content currentLines currentLine) in
      if currentLineCount >? previousLineCount then
        if currentLine >? previousLineCount then Some (LineAdded currentLine)
        else if (currentLine <=? Z.of_nat (length previousLines)) && changed
        then Some (LineEdited currentLine)
        else None
      else if (currentLineCount =? previousLineCount)
              && (currentLine <=? Z.of_nat (length previousLines)) then
        if changed then Some (LineEdited currentLine) else None
      else None
  end.

(** [handleContentChange()]: the event raised, and the new values of
    [previousContent] and [previousLineCount]. *)
Definition handleContentChange (previousContent : string)
    (previousLineCount : Z) (currentContent : string)
    (currentLine : option Z) : option LineEvent * string * Z :=
  (line_event previousContent previousLineCount currentContent currentLine,
   currentContent, getLineCount currentContent).

(** ** [GutterIcons]: [hide] and [show] *)

(** [key.split('-').map(Number)] on the key [`${s}-${e}`] (and on
    [`${s}-${e}-end`], whose first two fields are the same): a minus sign
    is taken for a separator, and an empty field converts to [0]. *)
Definition range_bounds (s e : Z) : Z * Z :=
  if s <? 0 then (0, - s)
  else if e <? 0 then (s, 0)
  else (s, e).

(** The keys [hide(lineNumber)] removes: the line's own key, and the keys
    of a range whose parsed bounds contain the line. *)
Definition covers (key : IconKey) (lineNumber : Z) : bool :=
  match key with
  | KLine n => bool_decide (n = lineNumber)
  | KRange s e | KRangeEnd s e =>
      let '(a, b) := range_bounds s e in
      (lineNumber >=? a) && (lineNumber <=? b)
  end.

(** The callback of [this.icons.forEach] in [hide], on a key of the
    iteration: a key deleted earlier in the same iteration is not
    visited. *)
Definition hide_visit (lineNumber : Z) (m : list (IconKey * nat))
    (key : IconKey) : list (IconKey * nat) :=
  if JsMap.has key m then
    match key with
    | KLine _ => m
    | KRange s e =>
        if covers key lineNumber
        then JsMap.delete (KRangeEnd s e) (JsMap.delete key m)
        else m
    | KRangeEnd s e =>
        if covers key lineNumber then JsMap.delete key m else m
    end
  else m.

(** [hide(lineNumber)] *)
Definition GutterIcons_hide (lineNumber : Z) (g : GutterIcons)
  : GutterIcons :=
  let m1 :=
    match JsMap.get (KLine lineNumber) (icons g) with
    | Some _ => JsMap.delete (KLine lineNumber) (icons g)
    | None => icons g
    end in
  {| iconEls := iconEls g;
     icons := fold_left (hide_visit lineNumber) (JsMap.keys m1) m1 |}.

(** [show(lineNumber, userName, changeType, metadata, endLine)]; the
    metadata only feeds the tooltip. *)
Definition GutterIcons_show (lineNumber : Z) (userName : string)
    (changeType : ChangeKind) (endLine : option Z) (g : GutterIcons)
  : GutterIcons :=
  if lineNumber <? 1 then g
  else
    let range :=
      match endLine with
      | Some e => if e =? 0 then None else Some e
      | None => None
      end in
    match range with
    | None =>
        let g1 := GutterIcons_hide lineNumber g in
        {| iconEls := iconEls g1
                      ++ [mkIconEl lineNumber None userName changeType];
           icons := JsMap.set (KLine lineNumber) (length (iconEls g1))
                              (icons g1) |}
    | Some e =>
        let g1 :=
          fold_left (fun acc i => GutterIcons_hide i acc)
                    (lines_from_to lineNumber e) g in
        let g2 :=
          {| iconEls := iconEls g1
                        ++ [mkIconEl lineNumber (Some e) userName changeType];
             icons := JsMap.set (KRange lineNumber e) (length (iconEls g1))
                                (icons g1) |} in
        if e >? lineNumber then
          {| iconEls := iconEls g2 ++ [mkIconEl e None userName changeType];
             icons := JsMap.set (KRangeEnd lineNumber e)
                                (length (iconEls g2)) (icons g2) |}
        else g2
    end.

(** [clear()] *)
Definition GutterIcons_clear (g : GutterIcons) : GutterIcons :=
  {| iconEls := iconEls g; icons := [] |}.

(** ** [Marker]: clearing and restoring *)

(** [clearPersistentMarkers()] *)
Definition clearPersistentMarkers (st : Marker) : Marker :=
  {| editorFound := editorFound st; elems := elems st;
     persistentMarkers := [] |}.

(** An entry of the data given to [restorePersistentMarkers]; an absent
    [changeType] defaults to ['edited']. *)
Record MarkerData := mkMarkerData {
  md_lineNumber : Z;
  md_userName : string;
  md_changeType : option ChangeKind
}.

(** [restorePersistentMarkers(markersData)]; [None] stands for a value
    that is missing or not an array. *)
Definition restorePersistentMarkers (markersData : option (list MarkerData))
    (st : Marker) : Marker :=
  match markersData with
  | None => st
  | Some data =>
      fold_left
        (fun acc d =>
           show (md_lineNumber d) (md_userName d)
                (default edited (md_changeType d)) None acc)
        data st
  end.

(** ** [consolidateMarkersIntoRanges] *)

(** The loop finding the consecutive ranges among the sorted single-line
    markers: the ranges pushed so far, [rangeStart], [rangeEnd] and the
    previous line. *)
Fixpoint find_ranges (ranges : list (Z * Z)) (rangeStart rangeEnd : Z)
    (prevLine : Z) (lines : list Z) : list (Z * Z) :=
  match lines with
  | [] =>
      if rangeEnd >? rangeStart then ranges ++ [(rangeStart, rangeEnd)]
      else ranges
  | line :: rest =>
      if line =? prevLine + 1 then
        find_ranges ranges rangeStart line line rest
      else
        let ranges' :=
          if rangeEnd >? rangeStart then ranges ++ [(rangeStart, rangeEnd)]
          else ranges in
        find_ranges ranges' line line line rest
  end.

(** The callback of [ranges.forEach]: the individual markers and icons of
    the range are removed, then the range marker and icon are shown. *)
Definition replace_by_range (userName : string) (changeType : ChangeKind)
    (acc : Marker * GutterIcons) (range : Z * Z) : Marker * GutterIcons :=
  let '(rangeStart, rangeEnd) := range in
  let '(m1, g1) :=
    fold_left
      (fun (mg : Marker * GutterIcons) line =>
         let '(m, g) := mg in
         let m' :=
           match JsMap.get line (persistentMarkers m) with
           | Some _ =>
               {| editorFound := editorFound m; elems := elems m;
                  persistentMarkers :=
                    JsMap.delete line (persistentMarkers m) |}
           | None => m
           end in
         (m', GutterIcons_hide line g))
      (lines_from_to rangeStart rangeEnd) acc in
  (show rangeStart userName changeType (Some rangeEnd) m1,
   GutterIcons_show rangeStart userName changeType (Some rangeEnd) g1).

(** [consolidateMarkersIntoRanges(marker, gutterIcons, userName,
    changeType)]: only the markers without [dataset.endLine] are
    considered. *)
Definition consolidateMarkersIntoRanges (userName : string)
    (changeType : ChangeKind) (m : Marker) (g : GutterIcons)
  : Marker * GutterIcons :=
  let singles :=
    List.filter (fun entry : Z * nat =>
                   match elems m !! entry.2 with
                   | Some el =>
                       match ds_endLine el with
                       | Some _ => false
                       | None => true
                       end
                   | None => false
                   end)
                (persistentMarkers m) in
  let lines := sort_by (fun l : Z => l) (JsMap.keys singles) in
  match lines with
  | [] | [_] => (m, g)
  | first :: rest =>
      fold_left (replace_by_range userName changeType)
                (find_ranges [] first first first rest) (m, g)
  end.

(** ** Push: the blocks shown to the other side *)

(** [clear()] of [ChangeBlock] *)
Definition ChangeBlock_clear (blocks : list (string * BlockData))
  : list (string * BlockData) := [].

(** The block part of a push: the facts of the pushing side are grouped
    into blocks, the receiving [ChangeBlock] is cleared and every block is
    created in it. *)
Definition push_blocks (now : Z) (userName : string)
    (changesMap : list (Z * LineFact))
    (shown : list (string * BlockData)) : list (string * BlockData) :=
  let uncommittedBlocks :=
    createChangeBlocks now (JsMap.values changesMap) userName in
  fold_left
    (fun acc block =>
       ChangeBlock_create (blockId block) (startLine block) (endLine block)
                          userName (changes block) (changeType block) acc)
    uncommittedBlocks (ChangeBlock_clear shown).

(** ** Invariants and shapes used in the further properties *)

(** [persistentMarkers] is keyed by start line: keys are distinct and
    every entry holds an element whose [dataset.line] is the key. *)
Definition marker_wf (st : Marker) : Prop :=
  NoDup (JsMap.keys (persistentMarkers st))
  /\ forall k m, JsMap.get k (persistentMarkers st) = Some m ->
       exists el, elems st !! m = Some el /\ ds_line el = k.


(** Every element has its start no later than its end. *)
Definition ranges_valid (st : Marker) : Prop :=
  Forall (fun el => ds_line el <= exEndOf el) (elems st).

(** Every element has [dataset.endLine] set. *)
Definition endLines_set (st : Marker) : Prop :=
  Forall (fun el => is_Some (ds_endLine el)) (elems st).

(** A block holds one content line per line it spans. *)
Definition block_spans (b : Block) : Prop :=
  startLine b <= endLine b
  /\ Z.of_nat (length (changes b)) = endLine b - startLine b + 1.

Definition blockData_spans (bd : BlockData) : Prop :=
  bd_startLine bd <= bd_endLine bd
  /\ Z.of_nat (length (bd_changes bd)) = bd_endLine bd - bd_startLine bd + 1.

(** The entry [create] stores for a block of [createChangeBlocks]. *)
Definition shown_block (userName : string) (b : Block)
  : string * BlockData :=
  (blockId b,
   mkBlockData (startLine b) (endLine b) userName (changes b)
               (changeType b)).

(* ================================================================== *)
(** * Properties *)
(* ================================================================== *)

(** ** Text: [split] and [join] are inverse of each other *)

Lemma split_not_nil (s : string) : Js.split s <> [].
Proof.
  destruct s as [|c s]; simpl; [discriminate|].
  destruct (Ascii.eqb c Js.nl); [discriminate|].
  destruct (Js.split s); discriminate.
Qed.

Lemma join_cons_cons (l l' : string) (ls : list string) :
  Js.join (l :: l' :: ls) = l +:+ String Js.nl (Js.join (l' :: ls)).
Proof. reflexivity. Qed.

Lemma join_split (s : string) : Js.join (Js.split s) = s.
Proof.
  induction s as [|c s IH]; [reflexivity|].
  simpl Js.split. pose proof (split_not_nil s) as Hne.
  destruct (Js.split s) as [|l ls] eqn:E; [congruence|].
  destruct (Ascii.eqb c Js.nl) eqn:Ec.
  - apply Ascii.eqb_eq in Ec. subst c.
    rewrite join_cons_cons, IH. reflexivity.
  - destruct ls as [|l' ls].
    + simpl in *. congruence.
    + rewrite join_cons_cons. rewrite join_cons_cons in IH.
      rewrite <- IH. reflexivity.
Qed.

Lemma no_newline_cons (c : ascii) (s : string) :
  Js.no_newline (String c s) <-> c <> Js.nl /\ Js.no_newline s.
Proof.
  unfold Js.no_newline. simpl. split.
  - intros H. split; [apply H; by left|]. intros d Hd. apply H. by right.
  - intros [Hc Hs] d [<-|Hd]; auto.
Qed.

Lemma split_no_newline (s : string) : Forall Js.no_newline (Js.split s).
Proof.
  induction s as [|c s IH]; simpl.
  - constructor; [|constructor]. intros c [].
  - destruct (Ascii.eqb c Js.nl) eqn:Ec.
    + constructor; [|exact IH]. intros d [].
    + apply Ascii.eqb_neq in Ec.
      destruct (Js.split s) as [|l ls].
      * constructor; [|constructor]. apply no_newline_cons. split; [done|].
        intros d [].
      * inversion IH; subst. constructor; [|done].
        apply no_newline_cons. done.
Qed.

Lemma split_app_newline (l rest : string) :
  Js.no_newline l ->
  Js.split (l +:+ String Js.nl rest) = l :: Js.split rest.
Proof.
  induction l as [|c l IH]; intros Hl.
  - reflexivity.
  - apply no_newline_cons in Hl as [Hc Hl].
    change (String c l +:+ String Js.nl rest)
      with (String c (l +:+ String Js.nl rest)).
    simpl. rewrite IH by done.
    apply Ascii.eqb_neq in Hc. rewrite Hc. reflexivity.
Qed.

Lemma split_single (l : string) : Js.no_newline l -> Js.split l = [l].
Proof.
  induction l as [|c l IH]; intros Hl; [reflexivity|].
  apply no_newline_cons in Hl as [Hc Hl]. simpl.
  apply Ascii.eqb_neq in Hc. rewrite Hc, IH by done. reflexivity.
Qed.

Lemma split_join (ls : list string) :
  ls <> [] -> Forall Js.no_newline ls -> Js.split (Js.join ls) = ls.
Proof.
  induction ls as [|l ls IH]; intros Hne Hall; [done|].
  inversion Hall as [|? ? Hl Hls]; subst.
  destruct ls as [|l' ls].
  - simpl. by apply split_single.
  - rewrite join_cons_cons, split_app_newline by done.
    f_equal. by apply IH.
Qed.

(** ** [mergeCode] *)

Lemma mergeCode_lines_length (tl sl : list string) :
  length (mergeCode_lines tl sl) = Nat.max (length tl) (length sl).
Proof. unfold mergeCode_lines. by rewrite length_map, length_seq. Qed.

Lemma mergeCode_lines_lookup (tl sl : list string) (i : nat) :
  mergeCode_lines tl sl !! i =
  if (i <? Nat.max (length tl) (length sl))%nat
  then Some (mergeCode_line tl sl i) else None.
Proof.
  unfold mergeCode_lines. rewrite list_lookup_fmap.
  destruct (Nat.ltb_spec i (Nat.max (length tl) (length sl))) as [Hlt|Hge].
  - rewrite lookup_seq_lt by done. reflexivity.
  - rewrite lookup_seq_ge by done. reflexivity.
Qed.

Lemma line_at_Some (ls : list string) (i : nat) (x : string) :
  ls !! i = Some x -> Js.line_at ls i = x.
Proof. unfold Js.line_at. by intros ->. Qed.

Lemma mergeCode_lines_no_newline (tl sl : list string) :
  Forall Js.no_newline tl -> Forall Js.no_newline sl ->
  Forall Js.no_newline (mergeCode_lines tl sl).
Proof.
  intros Ht Hs. apply Forall_lookup. intros i x Hx.
  rewrite mergeCode_lines_lookup in Hx.
  destruct (Nat.ltb_spec i (Nat.max (length tl) (length sl))); [|done].
  injection Hx as <-. unfold mergeCode_line.
  assert (Hin : forall ls j, Forall Js.no_newline ls ->
                        (j < length ls)%nat -> Js.no_newline (Js.line_at ls j)).
  { intros ls j Hall Hj. destruct (lookup_lt_is_Some_2 ls j Hj) as [y Hy].
    rewrite (line_at_Some _ _ _ Hy).
    eapply Forall_lookup_1; eauto. }
  destruct (Nat.ltb_spec i (length tl)), (Nat.ltb_spec i (length sl)); simpl;
    try (destruct (negb _)); try (apply Hin; done); lia.
Qed.

Lemma split_mergeCode (T S : string) :
  Js.split (mergeCode T S) = mergeCode_lines (Js.split T) (Js.split S).
Proof.
  unfold mergeCode. apply split_join.
  - intros Hnil. apply (f_equal length) in Hnil.
    rewrite mergeCode_lines_length in Hnil. simpl in Hnil.
    pose proof (split_not_nil T). destruct (Js.split T); [done|].
    simpl in Hnil. lia.
  - apply mergeCode_lines_no_newline; apply split_no_newline.
Qed.

(** The merged line at an index, from the two lines at that index. *)
Lemma mergeCode_lines_both (tl sl : list string) (i : nat) :
  mergeCode_lines tl sl !! i
  = match tl !! i, sl !! i with
    | Some t, Some s => Some (if String.eqb t s then t else s)
    | Some t, None => Some t
    | None, Some s => Some s
    | None, None => None
    end.
Proof.
  rewrite mergeCode_lines_lookup. unfold mergeCode_line.
  destruct (tl !! i) as [t|] eqn:Et; destruct (sl !! i) as [s|] eqn:Es.
  - pose proof (lookup_lt_Some _ _ _ Et). pose proof (lookup_lt_Some _ _ _ Es).
    destruct (Nat.ltb_spec i (Nat.max (length tl) (length sl))); [|lia].
    destruct (Nat.ltb_spec i (length tl)); [|lia].
    destruct (Nat.ltb_spec i (length sl)); [|lia]. simpl.
    rewrite (line_at_Some _ _ _ Et), (line_at_Some _ _ _ Es).
    by destruct (String.eqb t s).
  - pose proof (lookup_lt_Some _ _ _ Et). apply lookup_ge_None in Es.
    destruct (Nat.ltb_spec i (Nat.max (length tl) (length sl))); [|lia].
    destruct (Nat.ltb_spec i (length tl)); [|lia].
    destruct (Nat.ltb_spec i (length sl)); [lia|]. simpl.
    by rewrite (line_at_Some _ _ _ Et).
  - pose proof (lookup_lt_Some _ _ _ Es). apply lookup_ge_None in Et.
    destruct (Nat.ltb_spec i (Nat.max (length tl) (length sl))); [|lia].
    destruct (Nat.ltb_spec i (length tl)); [lia|].
    destruct (Nat.ltb_spec i (length sl)); [|lia]. simpl.
    by rewrite (line_at_Some _ _ _ Es).
  - apply lookup_ge_None in Et, Es.
    destruct (Nat.ltb_spec i (Nat.max (length tl) (length sl))); [lia|done].
Qed.

(** C5.  [mergeCode(T, S)] is the positional merge of the two buffers: it
    has as many lines as the longer buffer; at an index present in both
    buffers its line is the source's line when the two lines differ and the
    common line when they are equal; at an index present in one buffer only
    its line is that buffer's line; beyond both buffers it has no line. *)
Theorem mergeCode_positional (T S : string) :
  let targetLines := Js.split T in
  let sourceLines := Js.split S in
  let merged := Js.split (mergeCode T S) in
  length merged = Nat.max (length targetLines) (length sourceLines)
  /\ (forall i t s, targetLines !! i = Some t -> sourceLines !! i = Some s ->
                    t <> s -> merged !! i = Some s)
  /\ (forall i t s, targetLines !! i = Some t -> sourceLines !! i = Some s ->
                    t = s -> merged !! i = Some t /\ merged !! i = Some s)
  /\ (forall i t, targetLines !! i = Some t -> sourceLines !! i = None ->
                  merged !! i = Some t)
  /\ (forall i s, targetLines !! i = None -> sourceLines !! i = Some s ->
                  merged !! i = Some s)
  /\ (forall i, targetLines !! i = None -> sourceLines !! i = None ->
                merged !! i = None).
Proof.
  intros tl sl merged. subst merged. rewrite split_mergeCode. fold tl sl.
  split; [apply mergeCode_lines_length|].
  split; [|split; [|split; [|split]]].
  - intros i t s Ht Hs Hne.
    rewrite mergeCode_lines_both, Ht, Hs.
    apply String.eqb_neq in Hne. by rewrite Hne.
  - intros i t s Ht Hs ->.
    rewrite mergeCode_lines_both, Ht, Hs, String.eqb_refl. done.
  - intros i t Ht Hs. by rewrite mergeCode_lines_both, Ht, Hs.
  - intros i s Ht Hs. by rewrite mergeCode_lines_both, Ht, Hs.
  - intros i Ht Hs. by rewrite mergeCode_lines_both, Ht, Hs.
Qed.

Lemma mergeCode_lines_source (tl sl : list string) :
  (length tl <= length sl)%nat -> mergeCode_lines tl sl = sl.
Proof.
  intros Hle. apply list_eq. intros i. rewrite mergeCode_lines_lookup.
  rewrite Nat.max_r by done.
  destruct (Nat.ltb_spec i (length sl)) as [Hlt|Hge].
  - destruct (lookup_lt_is_Some_2 sl i Hlt) as [s Hs]. rewrite Hs. f_equal.
    unfold mergeCode_line.
    destruct (Nat.ltb_spec i (length sl)); [|lia].
    destruct (Nat.ltb_spec i (length tl)) as [Ht|Ht]; simpl.
    + rewrite (line_at_Some _ _ _ Hs).
      destruct (String.eqb_spec (Js.line_at tl i) s); simpl; congruence.
    + by apply line_at_Some.
  - symmetry. by apply lookup_ge_None.
Qed.

(** C10.  When the source buffer has at least as many lines as the target
    buffer, [mergeCode(T, S)] is the source buffer itself. *)
Theorem mergeCode_source_wins (T S : string) :
  (length (Js.split T) <= length (Js.split S))%nat ->
  mergeCode T S = S.
Proof.
  intros Hle. unfold mergeCode.
  rewrite mergeCode_lines_source by done. apply join_split.
Qed.

Lemma mergeCode_source_wins_witness :
  (length (Js.split "a") <= length (Js.split (String "b" (String Js.nl "c"))))%nat
  /\ mergeCode "a" (String "b" (String Js.nl "c"))
     = String "b" (String Js.nl "c").
Proof.
  split; [vm_compute; lia|].
  apply (mergeCode_source_wins "a" (String "b" (String Js.nl "c"))).
  vm_compute; lia.
Defined.

(** ** Insertion-ordered maps *)

Section jsmap_facts.
Context {K V : Type} `{EqDecision K}.
Implicit Types (m : list (K * V)) (k : K) (v : V).

Lemma get_set_eq m k v : JsMap.get k (JsMap.set k v m) = Some v.
Proof.
  induction m as [|[k' v'] m IH]; simpl.
  - by rewrite decide_True.
  - destruct (decide (k' = k)) as [->|Hne]; simpl.
    + by rewrite decide_True.
    + by rewrite decide_False.
Qed.

Lemma get_set_ne m k k' v :
  k <> k' -> JsMap.get k' (JsMap.set k v m) = JsMap.get k' m.
Proof.
  intros Hne. induction m as [|[k0 v0] m IH]; simpl.
  - by rewrite decide_False.
  - destruct (decide (k0 = k)) as [->|Hk0]; simpl.
    + by rewrite !decide_False.
    + destruct (decide (k0 = k')); [done|]. apply IH.
Qed.

Lemma get_delete_eq m k : JsMap.get k (JsMap.delete k m) = None.
Proof.
  induction m as [|[k0 v0] m IH]; simpl; [done|].
  destruct (decide (k0 = k)); simpl; [done|]. by rewrite decide_False.
Qed.

Lemma get_delete_ne m k k' :
  k <> k' -> JsMap.get k' (JsMap.delete k m) = JsMap.get k' m.
Proof.
  intros Hne. induction m as [|[k0 v0] m IH]; simpl; [done|].
  destruct (decide (k0 = k)) as [->|Hk0]; simpl.
  - by rewrite decide_False.
  - destruct (decide (k0 = k')); [done|]. apply IH.
Qed.

Lemma delete_absent m k : JsMap.get k m = None -> JsMap.delete k m = m.
Proof.
  induction m as [|[k0 v0] m IH]; simpl; [done|].
  destruct (decide (k0 = k)); [done|]. intros Hg. by rewrite IH.
Qed.
End jsmap_facts.

Section jsmap_membership.
Context {K V : Type} `{EqDecision K}.
Implicit Types (m : list (K * V)) (k : K) (v : V).

Lemma get_of_member m k v :
  NoDup (JsMap.keys m) -> (k, v) ∈ m -> JsMap.get k m = Some v.
Proof.
  induction m as [|[k0 v0] m IH]; intros Hnd Hin; [by inversion Hin|].
  simpl in *. apply NoDup_cons in Hnd as [Hk0 Hnd].
  apply elem_of_cons in Hin as [Heq|Hin].
  - injection Heq as -> ->. by rewrite decide_True.
  - destruct (decide (k0 = k)) as [->|Hne]; [|by apply IH].
    exfalso. apply Hk0. apply list_elem_of_fmap. by exists (k, v).
Qed.

Lemma member_of_get m k v : JsMap.get k m = Some v -> (k, v) ∈ m.
Proof.
  induction m as [|[k0 v0] m IH]; simpl; [done|].
  destruct (decide (k0 = k)) as [->|Hne].
  - intros [= ->]. by left.
  - intros Hg. right. by apply IH.
Qed.

Lemma keys_set_present m k v v0 :
  JsMap.get k m = Some v0 -> JsMap.keys (JsMap.set k v m) = JsMap.keys m.
Proof.
  induction m as [|[k0 v1] m IH]; simpl; [done|].
  destruct (decide (k0 = k)) as [->|Hne]; simpl; [done|].
  intros Hg. by rewrite IH.
Qed.
End jsmap_membership.

Section jsmap_keys.
Context {K V : Type} `{EqDecision K}.
Implicit Types (m : list (K * V)) (k : K) (v : V).

Lemma elem_keys_get m k : k ∈ JsMap.keys m <-> is_Some (JsMap.get k m).
Proof.
  split.
  - intros Hin. apply list_elem_of_fmap in Hin as ([k' v] & -> & Hin).
    induction m as [|[k0 v0] m IH]; [by inversion Hin|]. simpl.
    destruct (decide (k0 = k')); [by eexists|].
    apply elem_of_cons in Hin as [Heq|Hin]; [congruence|by apply IH].
  - intros [v Hv]. apply member_of_get in Hv.
    apply list_elem_of_fmap. by exists (k, v).
Qed.

Lemma keys_delete_NoDup m k :
  NoDup (JsMap.keys m) -> NoDup (JsMap.keys (JsMap.delete k m)).
Proof.
  induction m as [|[k0 v0] m IH]; intros Hnd; [done|].
  cbn [JsMap.keys map fst] in Hnd. apply NoDup_cons in Hnd as [Hfresh Hnd].
  simpl. destruct (decide (k0 = k)); [by apply IH|].
  cbn [JsMap.keys map fst]. apply NoDup_cons. split; [|by apply IH].
  intros Hin. apply Hfresh. apply elem_keys_get in Hin as [v Hv].
  apply elem_keys_get. exists v.
  destruct (decide (k = k0)) as [->|Hne]; [by rewrite get_delete_eq in Hv|].
  by rewrite get_delete_ne in Hv.
Qed.

Lemma keys_set_NoDup m k v :
  NoDup (JsMap.keys m) -> NoDup (JsMap.keys (JsMap.set k v m)).
Proof.
  induction m as [|[k0 v0] m IH]; intros Hnd.
  - simpl. apply NoDup_cons. split; [apply not_elem_of_nil|apply NoDup_nil_2].
  - cbn [JsMap.keys map fst] in Hnd. apply NoDup_cons in Hnd as [Hfresh Hnd].
    simpl. destruct (decide (k0 = k)) as [->|Hne].
    + cbn [JsMap.keys map fst]. by apply NoDup_cons.
    + cbn [JsMap.keys map fst]. apply NoDup_cons. split; [|by apply IH].
      intros Hin. apply Hfresh. apply elem_keys_get in Hin as [x Hx].
      apply elem_keys_get. exists x. by rewrite get_set_ne in Hx.
Qed.

Lemma length_delete_le m k :
  (length (JsMap.delete k m) <= length m)%nat.
Proof.
  induction m as [|[k0 v0] m IH]; simpl; [done|].
  destruct (decide (k0 = k)); simpl; lia.
Qed.
End jsmap_keys.

(** ** [ChangeBlock]: creation and split *)

Lemma get_remove_eq (blocks : list (string * BlockData)) (id : string) :
  JsMap.get id (ChangeBlock_remove id blocks) = None.
Proof.
  unfold ChangeBlock_remove.
  destruct (JsMap.get id blocks) eqn:E; [apply get_delete_eq|done].
Qed.

Lemma get_remove_ne (blocks : list (string * BlockData)) (id id' : string) :
  id <> id' ->
  JsMap.get id' (ChangeBlock_remove id blocks) = JsMap.get id' blocks.
Proof.
  intros Hne. unfold ChangeBlock_remove.
  destruct (JsMap.get id blocks); [by apply get_delete_ne|done].
Qed.

Lemma get_create_eq id s e u cs k (blocks : list (string * BlockData)) :
  JsMap.get id (ChangeBlock_create id s e u cs k blocks)
  = Some (mkBlockData s e u cs k).
Proof. apply get_set_eq. Qed.

Lemma get_create_ne id id' s e u cs k (blocks : list (string * BlockData)) :
  id <> id' ->
  JsMap.get id' (ChangeBlock_create id s e u cs k blocks)
  = JsMap.get id' blocks.
Proof.
  intros Hne. unfold ChangeBlock_create.
  rewrite get_set_ne by done. by apply get_remove_ne.
Qed.

Lemma append_suffix_ne (s x : string) : x <> EmptyString -> s +:+ x <> s.
Proof.
  intros Hx. induction s as [|c s IH]; simpl; [done|].
  intros Heq. injection Heq as Heq. by apply IH.
Qed.

Lemma part_ids_distinct (id : string) :
  id +:+ "-part1" <> id /\ id +:+ "-part2" <> id
  /\ id +:+ "-part1" <> id +:+ "-part2".
Proof.
  split; [by apply append_suffix_ne|].
  split; [by apply append_suffix_ne|].
  intros Heq. apply (inj (String.app id)) in Heq. discriminate.
Qed.

(** C6.  [split(blockId, splitLine)] on a block [s..e]: it fails, leaving
    the blocks as they are, when [splitLine <= s] or [splitLine >= e];
    otherwise it creates two blocks covering [s .. splitLine - 1] and
    [splitLine .. e] whose contents are the block's contents cut at the
    offset [splitLine - s], so that their concatenation is the original
    contents, the original block is no longer held, and every other block
    is untouched. *)
Theorem split_partitions (blockId : string) (splitLine : Z)
    (blocks : list (string * BlockData)) (bd : BlockData) :
  JsMap.get blockId blocks = Some bd ->
  let s := bd_startLine bd in
  let e := bd_endLine bd in
  let cut := Z.to_nat (splitLine - s) in
  (splitLine <= s \/ splitLine >= e ->
   ChangeBlock_split blockId splitLine blocks = (None, blocks))
  /\ (s < splitLine < e ->
      exists idA idB blocks',
        ChangeBlock_split blockId splitLine blocks
        = (Some (idA, idB), blocks')
        /\ JsMap.get idA blocks'
           = Some (mkBlockData s (splitLine - 1) (bd_userName bd)
                     (take cut (bd_changes bd)) (bd_changeType bd))
        /\ JsMap.get idB blocks'
           = Some (mkBlockData splitLine e (bd_userName bd)
                     (drop cut (bd_changes bd)) (bd_changeType bd))
        /\ take cut (bd_changes bd) ++ drop cut (bd_changes bd)
           = bd_changes bd
        /\ JsMap.get blockId blocks' = None
        /\ (forall id', id' <> blockId -> id' <> idA -> id' <> idB ->
                        JsMap.get id' blocks' = JsMap.get id' blocks)).
Proof.
  intros Hget s e cut. unfold ChangeBlock_split. rewrite Hget. fold s e.
  split.
  - intros Hbad.
    destruct (Z.leb_spec splitLine s); simpl; [done|].
    destruct (Z.geb_spec splitLine e); [done|lia].
  - intros [Hs He].
    destruct (Z.leb_spec splitLine s); [lia|].
    destruct (Z.geb_spec splitLine e); [lia|]. simpl.
    destruct (part_ids_distinct blockId) as (H1 & H2 & H12).
    eexists _, _, _. split; [reflexivity|].
    split; [|split; [|split; [|split]]].
    + rewrite get_remove_ne by done.
      rewrite get_create_ne by done. apply get_create_eq.
    + rewrite get_remove_ne by done. apply get_create_eq.
    + apply take_drop.
    + apply get_remove_eq.
    + intros id' Hid HA HB.
      rewrite get_remove_ne by done.
      rewrite !get_create_ne by done. reflexivity.
Qed.

Lemma split_partitions_witness :
  let blocks :=
    [("b"%string, mkBlockData 3 7 "User A" ["l3"; "l4"; "l5"; "l6"; "l7"] added)]
  in
  JsMap.get "b"%string blocks
  = Some (mkBlockData 3 7 "User A" ["l3"; "l4"; "l5"; "l6"; "l7"] added)
  /\ ChangeBlock_split "b" 3 blocks = (None, blocks)
  /\ ChangeBlock_split "b" 7 blocks = (None, blocks)
  /\ exists idA idB blocks',
      ChangeBlock_split "b" 5 blocks = (Some (idA, idB), blocks')
      /\ JsMap.get idA blocks'
         = Some (mkBlockData 3 4 "User A" ["l3"; "l4"] added)
      /\ JsMap.get idB blocks'
         = Some (mkBlockData 5 7 "User A" ["l5"; "l6"; "l7"] added).
Proof.
  intros blocks.
  assert (Hget : JsMap.get "b"%string blocks
    = Some (mkBlockData 3 7 "User A" ["l3"; "l4"; "l5"; "l6"; "l7"] added))
    by reflexivity.
  split; [exact Hget|].
  split; [apply (proj1 (split_partitions "b" 3 blocks _ Hget)); simpl; lia|].
  split; [apply (proj1 (split_partitions "b" 7 blocks _ Hget)); simpl; lia|].
  destruct (proj2 (split_partitions "b" 5 blocks _ Hget))
    as (idA & idB & blocks' & Hsplit & HA & HB & _); [simpl; lia|].
  exists idA, idB, blocks'. split; [exact Hsplit|]. split; [exact HA|exact HB].
Defined.

(** ** Sorting by a numeric key *)

Section sort_facts.
Context {A : Type} (key : A -> Z).

Lemma insert_sorted_perm (x : A) (l : list A) :
  insert_sorted key x l ≡ₚ x :: l.
Proof.
  induction l as [|y l IH]; simpl; [done|].
  destruct (key x <? key y); [done|].
  rewrite IH. apply Permutation_swap.
Qed.

Lemma sort_fold_perm (l acc : list A) :
  fold_left (fun acc x => insert_sorted key x acc) l acc ≡ₚ acc ++ l.
Proof.
  revert acc. induction l as [|x l IH]; intros acc; simpl.
  - by rewrite app_nil_r.
  - rewrite IH, insert_sorted_perm. simpl. apply Permutation_middle.
Qed.

Lemma sort_by_perm (l : list A) : sort_by key l ≡ₚ l.
Proof. unfold sort_by. by rewrite sort_fold_perm. Qed.

Lemma insert_sorted_sorted (x : A) (l : list A) :
  StronglySorted (key_le key) l -> StronglySorted (key_le key) (insert_sorted key x l).
Proof.
  induction 1 as [|y l Hl IH Hy]; simpl.
  - repeat constructor.
  - destruct (Z.ltb_spec (key x) (key y)) as [Hlt|Hge].
    + constructor; [by constructor|].
      constructor; [unfold key_le; lia|].
      eapply Forall_impl; [exact Hy|]. unfold key_le. intros z Hz. lia.
    + constructor; [exact IH|].
      rewrite insert_sorted_perm. constructor; [exact Hge|exact Hy].
Qed.

Lemma sort_fold_sorted (l acc : list A) :
  StronglySorted (key_le key) acc ->
  StronglySorted (key_le key)
    (fold_left (fun acc x => insert_sorted key x acc) l acc).
Proof.
  revert acc. induction l as [|x l IH]; intros acc Hacc; simpl; [done|].
  apply IH. by apply insert_sorted_sorted.
Qed.

Lemma sort_by_sorted (l : list A) : StronglySorted (key_le key) (sort_by key l).
Proof. apply sort_fold_sorted. constructor. Qed.
End sort_facts.

(** ** [createChangeBlocks] *)

Lemma run_kind_snoc (cur : list LineFact) (f : LineFact) :
  cur <> [] ->
  run_kind (cur ++ [f])
  = if bool_decide (run_kind cur <> lf_changeType f)
    then edited else run_kind cur.
Proof.
  intros _. unfold run_kind. rewrite forallb_app. simpl.
  destruct (forallb _ cur); simpl;
    destruct (lf_changeType f); simpl; reflexivity.
Qed.

Lemma run_kind_mixed (run : list LineFact) (g : LineFact) :
  g ∈ run -> lf_changeType g = edited -> run_kind run = edited.
Proof.
  intros Hin Hg. unfold run_kind.
  destruct (forallb _ run) eqn:E; [|done].
  rewrite forallb_forall in E. apply list_elem_of_In in Hin.
  specialize (E _ Hin). rewrite Hg in E. done.
Qed.

Lemma is_run_singleton (f : LineFact) : is_run [f].
Proof. intros [|i] a b Ha Hb; simpl in *; done. Qed.

Lemma is_run_snoc (cur : list LineFact) (a f : LineFact) :
  is_run cur -> last cur = Some a ->
  lf_lineNumber f = lf_lineNumber a + 1 ->
  is_run (cur ++ [f]).
Proof.
  intros Hrun Hlast Hf i x y Hx Hy.
  destruct (decide (S i < length cur)%nat) as [Hlt|Hge].
  - rewrite lookup_app_l in Hx by lia. rewrite lookup_app_l in Hy by lia.
    eauto.
  - assert (Hi : S i = length cur).
    { apply lookup_lt_Some in Hy. rewrite length_app in Hy. simpl in Hy. lia. }
    rewrite lookup_app_l in Hx by lia.
    rewrite lookup_app_r in Hy by lia.
    replace (S i - length cur)%nat with 0%nat in Hy by lia.
    simpl in Hy. injection Hy as <-.
    rewrite last_lookup in Hlast.
    replace (Nat.pred (length cur)) with i in Hlast by lia.
    congruence.
Qed.

Lemma runs_from_concat (l cur : list LineFact) (lastLine : Z) :
  concat (runs_from cur lastLine l) = cur ++ l.
Proof.
  revert cur lastLine. induction l as [|f l IH]; intros cur lastLine; simpl.
  - by rewrite !app_nil_r.
  - destruct (lf_lineNumber f =? lastLine + 1); simpl; rewrite IH.
    + by rewrite <- app_assoc.
    + done.
Qed.

Lemma runs_from_head (l cur : list LineFact) (lastLine : Z) :
  cur <> [] ->
  exists r rs, runs_from cur lastLine l = r :: rs /\ head r = head cur.
Proof.
  revert cur lastLine. induction l as [|f l IH]; intros cur lastLine Hne; simpl.
  - eauto.
  - destruct (lf_lineNumber f =? lastLine + 1).
    + destruct (IH (cur ++ [f]) (lf_lineNumber f)) as (r & rs & -> & Hh).
      { by destruct cur. }
      exists r, rs. split; [done|]. rewrite Hh. by destruct cur.
    + eauto.
Qed.

Lemma runs_from_runs (l cur : list LineFact) (lastLine : Z) (a : LineFact) :
  is_run cur -> last cur = Some a -> lf_lineNumber a = lastLine ->
  Forall (fun r => r <> [] /\ is_run r) (runs_from cur lastLine l).
Proof.
  revert cur lastLine a.
  induction l as [|f l IH]; intros cur lastLine a Hrun Hlast Ha; simpl.
  - constructor; [|constructor]. split; [|done]. by destruct cur.
  - destruct (Z.eqb_spec (lf_lineNumber f) (lastLine + 1)) as [Heq|Hne].
    + apply (IH _ _ f); [|by rewrite last_snoc|done].
      eapply is_run_snoc; eauto. lia.
    + constructor; [split; [by destruct cur|done]|].
      apply (IH _ _ f); [apply is_run_singleton|done|done].
Qed.

Lemma runs_from_separated (l cur : list LineFact) (lastLine : Z) :
  cur <> [] ->
  (forall a, last cur = Some a -> lf_lineNumber a = lastLine) ->
  runs_separated (runs_from cur lastLine l).
Proof.
  revert cur lastLine.
  induction l as [|f l IH]; intros cur lastLine Hne Hlast; simpl.
  - intros [|i] r1 r2 a b H1 H2; simpl in *; done.
  - destruct (Z.eqb_spec (lf_lineNumber f) (lastLine + 1)) as [Heq|Hgap].
    + apply IH; [by destruct cur|].
      intros a. rewrite last_snoc. by intros [= <-].
    + intros [|i] r1 r2 a b H1 H2 Ha Hb; simpl in *.
      * injection H1 as <-.
        destruct (runs_from_head l [f] (lf_lineNumber f)) as (r & rs & Hr & Hh);
          [done|].
        rewrite Hr in H2. simpl in H2. injection H2 as <-.
        rewrite Hh in Hb. simpl in Hb. injection Hb as <-.
        rewrite (Hlast _ Ha). exact Hgap.
      * assert (Hf : forall a', last [f] = Some a' ->
                            lf_lineNumber a' = lf_lineNumber f).
        { intros a'. simpl. by intros [= <-]. }
        exact (IH [f] (lf_lineNumber f) ltac:(done) Hf i r1 r2 a b
                  H1 H2 Ha Hb).
Qed.

Lemma group_fold (userName : string) (now : Z) (l : list LineFact) :
  forall (blocks : list Block) (cb : Block) (cur : list LineFact),
    cur <> [] -> block_of_run cur cb ->
    exists B cb',
      fold_left (group_step userName now) l (blocks, Some cb)
      = (blocks ++ B, Some cb')
      /\ Forall2 block_of_run (runs_from cur (endLine cb) l) (B ++ [cb']).
Proof.
  induction l as [|f l IH]; intros blocks cb cur Hne Hb.
  - exists [], cb. simpl. rewrite app_nil_r. split; [done|].
    constructor; [done|constructor].
  - simpl. destruct Hb as (Hhd & Hlst & Hch & Hk).
    destruct (Z.eqb_spec (lf_lineNumber f) (endLine cb + 1)) as [Heq|Hgap].
    + edestruct (IH blocks
                 (mkBlock (blockId cb) (startLine cb) (lf_lineNumber f)
                    (changes cb ++ [lf_lineContent f])
                    (if bool_decide (changeType cb <> lf_changeType f)
                     then edited else changeType cb))
                 (cur ++ [f])) as (B & cb' & Hfold & Hall).
      { by destruct cur. }
      { repeat split; simpl.
        - destruct cur; [done|]. exact Hhd.
        - by rewrite last_snoc.
        - by rewrite map_app, Hch.
        - rewrite run_kind_snoc by done. by rewrite Hk. }
      exists B, cb'. split; [exact Hfold|exact Hall].
    + edestruct (IH (blocks ++ [cb])
                 (new_block userName now (length (blocks ++ [cb])) f)
                 [f]) as (B & cb' & Hfold & Hall); [done| |].
      { repeat split; simpl. unfold run_kind. simpl.
        by destruct (lf_changeType f). }
      exists (cb :: B), cb'. split.
      * rewrite Hfold. by rewrite <- app_assoc.
      * simpl. constructor; [|exact Hall].
        repeat split; auto.
Qed.

(** C7.  [createChangeBlocks] sorts the facts by line number and cuts the
    sorted sequence into runs: within a run every line number is exactly
    one more than the one before, two neighbouring runs are separated by
    any other gap, and each run makes one block (first line, last line,
    contents in order); the block of a run that mixes additions and edits
    has the kind [edited]. *)
Theorem createChangeBlocks_groups (now : Z) (facts : list LineFact)
    (userName : string) :
  let sorted := sort_by lf_lineNumber facts in
  sorted ≡ₚ facts
  /\ StronglySorted (fun a b => lf_lineNumber a <= lf_lineNumber b) sorted
  /\ exists runs : list (list LineFact),
       concat runs = sorted
       /\ Forall (fun run => run <> [] /\ is_run run) runs
       /\ runs_separated runs
       /\ Forall2
            (fun run block =>
               block_of_run run block
               /\ (forall f g, f ∈ run -> g ∈ run ->
                               lf_changeType f = added ->
                               lf_changeType g = edited ->
                               changeType block = edited))
            runs (createChangeBlocks now facts userName).
Proof.
  intros sorted.
  split; [apply sort_by_perm|].
  split; [apply (sort_by_sorted lf_lineNumber)|].
  assert (Hmix : forall runs blocks,
    Forall2 block_of_run runs blocks ->
    Forall2
      (fun run block =>
         block_of_run run block
         /\ (forall f g, f ∈ run -> g ∈ run ->
                         lf_changeType f = added ->
                         lf_changeType g = edited ->
                         changeType block = edited)) runs blocks).
  { intros runs blocks H. eapply Forall2_impl; [exact H|].
    intros run b Hb. split; [exact Hb|].
    intros f g _ Hg _ Hge. destruct Hb as (_ & _ & _ & ->).
    eapply run_kind_mixed; eauto. }
  unfold createChangeBlocks. fold sorted.
  destruct facts as [|f0 facts'].
  { exists []. repeat split; try constructor.
    intros i r1 r2 a b H1; done. }
  destruct sorted as [|x l] eqn:Es.
  { exfalso. pose proof (sort_by_perm lf_lineNumber (f0 :: facts')) as Hp.
    fold sorted in Hp. rewrite Es in Hp.
    by apply Permutation_nil_cons in Hp. }
  simpl fold_left.
  destruct (group_fold userName now l [] (new_block userName now 0 x) [x])
    as (B & cb' & Hfold & Hall); [done| |].
  { repeat split; simpl. unfold run_kind. simpl.
    by destruct (lf_changeType x). }
  simpl in Hfold. rewrite Hfold.
  exists (runs_from [x] (lf_lineNumber x) l).
  split; [by rewrite runs_from_concat|].
  split; [by apply (runs_from_runs l [x] _ x); [apply is_run_singleton|..]|].
  split.
  - apply runs_from_separated; [done|]. simpl. by intros a [= <-].
  - apply Hmix. exact Hall.
Qed.

(** ** [Marker]: merge-on-insert *)


Lemma updateMarkerRange_length (marker : nat) (s e : Z) (st : Marker) :
  length (elems (updateMarkerRange marker s e st)) = length (elems st).
Proof.
  unfold updateMarkerRange. destruct (elems st !! marker); [|done].
  simpl. apply length_insert.
Qed.

Lemma consolidate_for_length (fuel : nat) :
  forall (markers : list nat) (i : nat) (st : Marker),
    length (elems (consolidate_for fuel markers i st)) = length (elems st).
Proof.
  induction fuel as [|fuel IH]; intros markers i st; simpl; [done|].
  destruct (i <? length markers - 1)%nat; [|done].
  destruct (markers !! i) as [curr|]; [|done].
  destruct (markers !! S i) as [next|]; [|done].
  destruct (elems st !! curr) as [c|]; [|done].
  destruct (elems st !! next) as [n|]; [|done].
  destruct (_ && _).
  - rewrite IH, updateMarkerRange_length. done.
  - apply IH.
Qed.

Lemma consolidateAllMarkers_length (st : Marker) :
  length (elems (consolidateAllMarkers st)) = length (elems st).
Proof.
  unfold consolidateAllMarkers.
  destruct (_ <? 2)%nat; [done|]. apply consolidate_for_length.
Qed.

(** One turn of the search loop on an element that matches no case. *)
Lemma show_search_skip (els : list MarkerEl) (m : nat) (rest : list nat)
    (u : string) (k : ChangeKind) (cs ce : Z) :
  (forall ex, els !! m = Some ex -> ~ merge_case ex u k cs ce) ->
  show_search els (m :: rest) u k cs ce = show_search els rest u k cs ce.
Proof.
  intros Hno. simpl. destruct (els !! m) as [ex|] eqn:E; [|done].
  specialize (Hno ex eq_refl).
  unfold merge_case, same_owner, bottom_extend, top_extend, overlaps in Hno.
  destruct (bool_decide_reflect (ds_rawUser ex = u)) as [Hu|Hu]; [|done].
  destruct (bool_decide_reflect (ds_changeType ex = k)) as [Hk|Hk]; [|done].
  simpl.
  destruct (Z.eqb_spec (exEndOf ex + 1) cs); [exfalso; tauto|].
  destruct (Z.eqb_spec (ce + 1) (exStartOf ex)); [exfalso; tauto|].
  destruct (Z.geb_spec cs (exStartOf ex)), (Z.leb_spec cs (exEndOf ex)),
           (Z.geb_spec ce (exStartOf ex)), (Z.leb_spec ce (exEndOf ex));
    simpl; try done; exfalso; apply Hno; (split; [done|]); right; right; lia.
Qed.



Lemma show_search_none (els : list MarkerEl) (markers : list nat)
    (u : string) (k : ChangeKind) (cs ce : Z) :
  (forall m ex, m ∈ markers -> els !! m = Some ex ->
                ~ merge_case ex u k cs ce) ->
  show_search els markers u k cs ce = None.
Proof.
  induction markers as [|m markers IH]; intros Hno; [done|].
  rewrite show_search_skip.
  - apply IH. intros m' ex' Hin. apply Hno. by right.
  - intros ex. apply Hno. by left.
Qed.

(** The search loop only ever picks a range of the candidate's author and
    kind. *)
Lemma show_search_same_owner (els : list MarkerEl) (markers : list nat)
    (u : string) (k : ChangeKind) (cs ce : Z) (m : nat) (s e : Z) :
  show_search els markers u k cs ce = Some (m, s, e) ->
  exists ex, els !! m = Some ex /\ same_owner ex u k.
Proof.
  induction markers as [|x markers IH]; simpl; [done|].
  destruct (els !! x) as [ex|] eqn:Ex; [|exact IH].
  destruct (bool_decide_reflect (ds_rawUser ex = u)) as [Hu|Hu]; [|exact IH].
  destruct (bool_decide_reflect (ds_changeType ex = k)) as [Hk|Hk];
    [|exact IH].
  cbn [andb].
  destruct (_ =? _); [intros [= <- _ _]; by exists ex|].
  destruct (_ =? _); [intros [= <- _ _]; by exists ex|].
  destruct (_ || _); [intros [= <- _ _]; by exists ex|exact IH].
Qed.

(** ** [Marker]: the consolidation pass *)

Lemma consolidate_for_stop (fuel : nat) (markers : list nat) (i : nat)
    (st : Marker) :
  (length markers - 1 <= i)%nat -> consolidate_for fuel markers i st = st.
Proof.
  intros Hge. destruct fuel; simpl; [done|].
  destruct (Nat.ltb_spec i (length markers - 1)); [lia|done].
Qed.

Lemma consolidate_for_merge (fuel : nat) (markers : list nat) (i : nat)
    (st : Marker) (curr next : nat) (c n : MarkerEl) :
  markers !! i = Some curr -> markers !! S i = Some next ->
  elems st !! curr = Some c -> elems st !! next = Some n ->
  ds_rawUser c = ds_rawUser n -> exEndOf c + 1 = exStartOf n ->
  consolidate_for (S fuel) markers i st
  = consolidate_for fuel (list_delete (S i) markers) i
      (updateMarkerRange curr (exStartOf c) (exEndOf n)
         {| editorFound := editorFound st;
            elems := elems st;
            persistentMarkers :=
              JsMap.delete (exStartOf n) (persistentMarkers st) |}).
Proof.
  intros Hc Hn Hec Hen Hu Hadj. simpl.
  pose proof (lookup_lt_Some _ _ _ Hn) as Hlt.
  destruct (Nat.ltb_spec i (length markers - 1)); [|lia].
  rewrite Hc, Hn, Hec, Hen.
  rewrite (bool_decide_eq_true_2 _ Hu).
  apply Z.eqb_eq in Hadj. rewrite Hadj. reflexivity.
Qed.

(** A pass that meets no pair to merge changes nothing. *)
Lemma consolidate_for_no_merge (fuel : nat) (markers : list nat)
    (st : Marker) :
  (forall i curr next c n,
      markers !! i = Some curr -> markers !! S i = Some next ->
      elems st !! curr = Some c -> elems st !! next = Some n ->
      ~ (ds_rawUser c = ds_rawUser n /\ exEndOf c + 1 = exStartOf n)) ->
  forall i, consolidate_for fuel markers i st = st.
Proof.
  intros Hno. induction fuel as [|fuel IH]; intros i; simpl; [done|].
  destruct (i <? length markers - 1)%nat; [|done].
  destruct (markers !! i) as [curr|] eqn:Ec; [|done].
  destruct (markers !! S i) as [next|] eqn:En; [|done].
  destruct (elems st !! curr) as [c|] eqn:Eec; [|done].
  destruct (elems st !! next) as [n|] eqn:Een; [|done].
  destruct (bool_decide_reflect (ds_rawUser c = ds_rawUser n)) as [Hu|Hu],
           (Z.eqb_spec (exEndOf c + 1) (exStartOf n)) as [Ha|Ha];
    cbn [andb]; try apply IH.
  exfalso. exact (Hno i curr next c n Ec En Eec Een (conj Hu Ha)).
Qed.

(** The pass is the identity on a side where no two neighbours in start
    order have the same author and touching lines. *)
Lemma consolidateAllMarkers_fixed (st : Marker) :
  (forall i curr next c n,
      sort_by (line_of (elems st)) (JsMap.values (persistentMarkers st)) !! i
      = Some curr ->
      sort_by (line_of (elems st)) (JsMap.values (persistentMarkers st)) !! S i
      = Some next ->
      elems st !! curr = Some c -> elems st !! next = Some n ->
      ~ (ds_rawUser c = ds_rawUser n /\ exEndOf c + 1 = exStartOf n)) ->
  consolidateAllMarkers st = st.
Proof.
  intros Hno. unfold consolidateAllMarkers.
  destruct (_ <? 2)%nat; [done|]. by apply consolidate_for_no_merge.
Qed.

(** The loop ends within the fuel [consolidateAllMarkers] gives it: more
    fuel changes nothing. *)
Lemma consolidate_for_fuel (fuel : nat) :
  forall (fuel' : nat) (markers : list nat) (i : nat) (st : Marker),
    (length markers - 1 - i <= fuel)%nat -> (fuel <= fuel')%nat ->
    consolidate_for fuel' markers i st = consolidate_for fuel markers i st.
Proof.
  induction fuel as [|fuel IH]; intros fuel' markers i st Hm Hf.
  - rewrite !consolidate_for_stop by lia. done.
  - destruct fuel' as [|fuel']; [lia|]. simpl.
    destruct (Nat.ltb_spec i (length markers - 1)) as [Hlt|Hge]; [|done].
    destruct (markers !! i) as [curr|]; [|done].
    destruct (markers !! S i) as [next|] eqn:En; [|done].
    destruct (elems st !! curr) as [c|]; [|done].
    destruct (elems st !! next) as [n|]; [|done].
    destruct (_ && _).
    + apply IH; [|lia].
      pose proof (length_delete markers (S i) ltac:(eauto)) as Hd.
      unfold delete in Hd. rewrite Hd. lia.
    + apply IH; lia.
Qed.

(** The state reached by the bridging insert. *)
Lemma bridging_state (u : string) (k : ChangeKind) (st : Marker) (i j : nat)
    (endLine : option Z) :
  editorFound st = true ->
  persistentMarkers st = [(1, i); (4, j)]
  \/ persistentMarkers st = [(4, j); (1, i)] ->
  elems st !! i = Some (mkMarkerEl 1 (Some 2) u k) ->
  elems st !! j = Some (mkMarkerEl 4 (Some 5) u k) ->
  endLine = None \/ endLine = Some 3 ->
  exists els,
    show 3 u k endLine st = mkMarker (editorFound st) els [(1, i)]
    /\ els !! i = Some (mkMarkerEl 1 (Some 5) u k).
Proof.
  intros Hed Hpm Hi Hj Hend.
  assert (Hij : i <> j) by (intros ->; rewrite Hi in Hj; done).
  assert (Hli : (i < length (elems st))%nat) by (by eapply lookup_lt_Some).
  assert (Hlj : (j < length (elems st))%nat) by (by eapply lookup_lt_Some).
  assert (cE : currentEndOf 3 endLine = 3)
    by (destruct Hend as [-> | ->]; reflexivity).
  assert (Hu : bool_decide (u = u) = true) by (by apply bool_decide_eq_true_2).
  assert (Hk : bool_decide (k = k) = true) by (by apply bool_decide_eq_true_2).
  unfold show. simpl (3 <? 1). rewrite Hed. simpl negb. cbv iota. rewrite cE.
  destruct Hpm as [Hpm|Hpm]; rewrite Hpm; simpl JsMap.values.
  - (* [1,2] is met first: bottom-extend to [1,3], then the pass *)
    simpl show_search. rewrite Hi. simpl. rewrite Hu, Hk. simpl.
    unfold updateMarkerRange at 1. rewrite Hi, Hpm. simpl.
    set (els1 := <[i := _]> (elems st)).
    assert (Hi1 : els1 !! i = Some (mkMarkerEl 1 (Some 3) u k))
      by (by apply list_lookup_insert_eq).
    assert (Hj1 : els1 !! j = Some (mkMarkerEl 4 (Some 5) u k))
      by (unfold els1; by rewrite list_lookup_insert_ne).
    unfold consolidateAllMarkers. simpl elems. simpl persistentMarkers.
    assert (Hsort : sort_by (line_of els1) (JsMap.values [(4, j); (1, i)])
                    = [i; j]).
    { unfold sort_by, line_of. simpl. by rewrite Hi1, Hj1. }
    rewrite Hsort. simpl length. simpl (2 <? 2)%nat. cbv iota.
    erewrite consolidate_for_merge;
      [|reflexivity|reflexivity|exact Hi1|exact Hj1|done|done].
    rewrite consolidate_for_stop by (simpl; lia).
    unfold updateMarkerRange. simpl. rewrite Hi1. simpl. rewrite ?Hed.
    eexists. split; [reflexivity|].
    apply list_lookup_insert_eq. unfold els1. by rewrite length_insert.
  - (* [4,5] is met first: top-extend to [3,5], then the pass *)
    simpl show_search. rewrite Hj. simpl. rewrite Hu, Hk. simpl.
    unfold updateMarkerRange at 1. rewrite Hj, Hpm. simpl.
    set (els1 := <[j := _]> (elems st)).
    assert (Hj1 : els1 !! j = Some (mkMarkerEl 3 (Some 5) u k))
      by (by apply list_lookup_insert_eq).
    assert (Hi1 : els1 !! i = Some (mkMarkerEl 1 (Some 2) u k))
      by (unfold els1; by rewrite list_lookup_insert_ne).
    unfold consolidateAllMarkers. simpl elems. simpl persistentMarkers.
    assert (Hsort : sort_by (line_of els1) (JsMap.values [(1, i); (3, j)])
                    = [i; j]).
    { unfold sort_by, line_of. simpl. by rewrite Hi1, Hj1. }
    rewrite Hsort. simpl length. simpl (2 <? 2)%nat. cbv iota.
    erewrite consolidate_for_merge;
      [|reflexivity|reflexivity|exact Hi1|exact Hj1|done|done].
    rewrite consolidate_for_stop by (simpl; lia).
    unfold updateMarkerRange. simpl. rewrite Hi1. simpl. rewrite ?Hed.
    eexists. split; [reflexivity|].
    apply list_lookup_insert_eq. unfold els1. by rewrite length_insert.
Qed.

(** C3.  Bridging.  On a side holding exactly the ranges [1,2] and [4,5]
    of one author and kind (in either insertion order), showing line 3 for
    that author and kind leaves exactly one range, [1,5]; that state is a
    fixed point of the consolidation pass. *)
Theorem show_bridges (u : string) (k : ChangeKind) (st : Marker) (i j : nat)
    (endLine : option Z) :
  editorFound st = true ->
  persistentMarkers st = [(1, i); (4, j)]
  \/ persistentMarkers st = [(4, j); (1, i)] ->
  elems st !! i = Some (mkMarkerEl 1 (Some 2) u k) ->
  elems st !! j = Some (mkMarkerEl 4 (Some 5) u k) ->
  endLine = None \/ endLine = Some 3 ->
  ranges (show 3 u k endLine st) = [(1, 5, u, k)]
  /\ consolidateAllMarkers (show 3 u k endLine st) = show 3 u k endLine st.
Proof.
  intros Hed Hpm Hi Hj Hend.
  destruct (bridging_state u k st i j endLine Hed Hpm Hi Hj Hend)
    as (els & -> & Hels).
  split.
  - unfold ranges. simpl. rewrite Hels. reflexivity.
  - reflexivity.
Qed.

Lemma show_bridges_witness :
  let st :=
    show 4 "User A" added (Some 5)
         (show 1 "User A" added (Some 2) emptyMarker) in
  ranges st = [(1, 2, "User A", added); (4, 5, "User A", added)]
  /\ ranges (show 3 "User A" added None st) = [(1, 5, "User A", added)].
Proof.
  intros st. split; [reflexivity|].
  apply (show_bridges "User A" added st 0%nat 1%nat None).
  - reflexivity.
  - left. reflexivity.
  - reflexivity.
  - reflexivity.
  - left. reflexivity.
Defined.

(** C1.  The consolidation pass merges across change kinds.  A side holds
    [1,2] added and [3,3] edited by one author (the second [show] rightly
    does not merge them); showing line 4 as edited extends [3,3] to [3,4],
    and the pass that follows then folds the edited range into the added
    one: the side ends with the single range [1,4], added. *)
Theorem consolidation_merges_across_kinds :
  let st :=
    show 3 "User A" edited None
         (show 1 "User A" added (Some 2) emptyMarker) in
  ranges st = [(1, 2, "User A", added); (3, 3, "User A", edited)]
  /\ ranges (show 4 "User A" edited None st) = [(1, 4, "User A", added)].
Proof. split; reflexivity. Qed.

(** C9.  The consolidation pass changes a set that holds no two adjacent
    or overlapping ranges of one author and kind: [1,2] added and [3,4]
    edited by one author become the single range [1,4], added. *)
Theorem consolidation_changes_consolidated_set :
  let st :=
    show 3 "User A" edited (Some 4)
         (show 1 "User A" added (Some 2) emptyMarker) in
  ranges st = [(1, 2, "User A", added); (3, 4, "User A", edited)]
  /\ ranges (consolidateAllMarkers st) = [(1, 4, "User A", added)]
  /\ consolidateAllMarkers st <> st.
Proof. split; [reflexivity|]. split; [reflexivity|]. discriminate. Qed.

(** ** [Marker]: merge-on-insert, after the call *)

Lemma candidate_end_currentEndOf (lineNumber : Z) (endLine : option Z)
    (ce : Z) :
  candidate_end lineNumber endLine ce -> currentEndOf lineNumber endLine = ce.
Proof.
  unfold candidate_end, currentEndOf. destruct endLine as [e|]; [|done].
  destruct (Z.eqb_spec e 0); intros [[? ?]|[? ?]]; congruence.
Qed.

Lemma wf_delete (st : Marker) (k : Z) :
  marker_wf st ->
  marker_wf {| editorFound := editorFound st; elems := elems st;
               persistentMarkers := JsMap.delete k (persistentMarkers st) |}.
Proof.
  intros [Hnd Hheld]. split; simpl.
  - by apply keys_delete_NoDup.
  - intros k' m Hg. apply Hheld.
    destruct (decide (k = k')) as [->|Hne]; [by rewrite get_delete_eq in Hg|].
    by rewrite get_delete_ne in Hg.
Qed.

Lemma wf_updateMarkerRange (marker : nat) (s e : Z) (st : Marker) :
  marker_wf st -> marker_wf (updateMarkerRange marker s e st).
Proof.
  intros [Hnd Hheld]. unfold updateMarkerRange.
  destruct (elems st !! marker) as [el|] eqn:Eel; [|done].
  split; simpl.
  - by apply keys_set_NoDup, keys_delete_NoDup.
  - intros k m Hg. destruct (decide (s = k)) as [<-|Hne].
    + rewrite get_set_eq in Hg. injection Hg as <-.
      exists (mkMarkerEl s (Some e) (ds_rawUser el) (ds_changeType el)).
      split; [|reflexivity].
      apply list_lookup_insert_eq. by eapply lookup_lt_Some.
    + rewrite get_set_ne in Hg by done.
      destruct (decide (ds_line el = k)) as [<-|Hold];
        [by rewrite get_delete_eq in Hg|].
      rewrite get_delete_ne in Hg by done.
      destruct (Hheld k m Hg) as (el0 & Hel0 & Hline).
      exists el0. split; [|done].
      rewrite list_lookup_insert_ne; [done|].
      intros <-. congruence.
Qed.

Lemma wf_consolidate_for (fuel : nat) :
  forall markers i st,
    marker_wf st -> marker_wf (consolidate_for fuel markers i st).
Proof.
  induction fuel as [|fuel IH]; intros markers i st Hwf; simpl; [done|].
  destruct (i <? length markers - 1)%nat; [|done].
  destruct (markers !! i) as [curr|]; [|done].
  destruct (markers !! S i) as [next|]; [|done].
  destruct (elems st !! curr) as [c|] eqn:Ec; [|done].
  destruct (elems st !! next) as [n|] eqn:En; [|done].
  destruct (_ && _); [|by apply IH].
  apply IH. apply wf_updateMarkerRange. by apply wf_delete.
Qed.

Lemma wf_consolidateAllMarkers (st : Marker) :
  marker_wf st -> marker_wf (consolidateAllMarkers st).
Proof.
  intros Hwf. unfold consolidateAllMarkers.
  destruct (_ <? 2)%nat; [done|]. by apply wf_consolidate_for.
Qed.

Lemma wf_show (lineNumber : Z) (u : string) (k : ChangeKind)
    (endLine : option Z) (st : Marker) :
  marker_wf st -> marker_wf (show lineNumber u k endLine st).
Proof.
  intros Hwf. unfold show.
  destruct (lineNumber <? 1); [done|].
  destruct (negb (editorFound st)); [done|].
  destruct (show_search _ _ _ _ _ _) as [[[m s] e]|].
  - by apply wf_consolidateAllMarkers, wf_updateMarkerRange.
  - destruct Hwf as [Hnd Hheld]. split; simpl.
    + by apply keys_set_NoDup.
    + intros k0 m Hg. destruct (decide (lineNumber = k0)) as [<-|Hne].
      * rewrite get_set_eq in Hg. injection Hg as <-.
        exists (mkMarkerEl lineNumber (Some (currentEndOf lineNumber endLine))
                           u k).
        split; [|reflexivity].
        rewrite lookup_app_r by done. by rewrite Nat.sub_diag.
      * rewrite get_set_ne in Hg by done.
        destruct (Hheld k0 m Hg) as (el0 & Hel0 & Hline).
        exists el0. split; [|done].
        rewrite lookup_app_l; [done|]. by eapply lookup_lt_Some.
Qed.









Section jsmap_values.
Context {K V : Type} `{EqDecision K}.
Implicit Types (m : list (K * V)) (k : K) (v x : V).

Lemma values_delete m k x :
  x ∈ JsMap.values (JsMap.delete k m) -> x ∈ JsMap.values m.
Proof.
  induction m as [|[k0 v0] m IH]; simpl; [done|].
  destruct (decide (k0 = k)).
  - intros Hin. right. by apply IH.
  - cbn [JsMap.values map snd]. intros Hin.
    apply elem_of_cons in Hin as [->|Hin]; [by left|right; by apply IH].
Qed.

Lemma values_set m k v x :
  x ∈ JsMap.values (JsMap.set k v m) -> x = v \/ x ∈ JsMap.values m.
Proof.
  induction m as [|[k0 v0] m IH]; simpl.
  - intros Hin. apply list_elem_of_singleton in Hin. by left.
  - destruct (decide (k0 = k)); cbn [JsMap.values map snd]; intros Hin;
      apply elem_of_cons in Hin as [->|Hin].
    + by left.
    + right. by right.
    + right. by left.
    + destruct (IH Hin) as [->|Hx]; [by left|right; by right].
Qed.
End jsmap_values.

Lemma show_search_member (els : list MarkerEl) (markers : list nat)
    (u : string) (k : ChangeKind) (cs ce : Z) (m : nat) (s e : Z) :
  show_search els markers u k cs ce = Some (m, s, e) -> m ∈ markers.
Proof.
  induction markers as [|x markers IH]; simpl; [done|].
  assert (Hrest : show_search els markers u k cs ce = Some (m, s, e) ->
                  m ∈ x :: markers) by (intros Hr; right; by apply IH).
  destruct (els !! x) as [ex|]; [|exact Hrest].
  destruct (_ && _); [|exact Hrest].
  destruct (_ =? _); [intros [= <- _ _]; by left|].
  destruct (_ =? _); [intros [= <- _ _]; by left|].
  destruct (_ || _); [intros [= <- _ _]; by left|exact Hrest].
Qed.

(** [updateMarkerRange] brings no element into the map but the one it is
    given. *)
Lemma updateMarkerRange_values (m : nat) (s e : Z) (st : Marker) (x : nat) :
  x ∈ JsMap.values (persistentMarkers (updateMarkerRange m s e st)) ->
  x = m \/ x ∈ JsMap.values (persistentMarkers st).
Proof.
  unfold updateMarkerRange. destruct (elems st !! m); [|by right].
  cbn [persistentMarkers]. intros Hin.
  apply values_set in Hin as [->|Hin]; [by left|right].
  by eapply values_delete.
Qed.

(** The pass brings no element into the map but those it walks. *)
Lemma consolidate_for_values (fuel : nat) :
  forall markers i st x,
    x ∈ JsMap.values (persistentMarkers (consolidate_for fuel markers i st)) ->
    x ∈ JsMap.values (persistentMarkers st) \/ x ∈ markers.
Proof.
  induction fuel as [|fuel IH]; intros markers i st x; simpl; [by left|].
  destruct (i <? length markers - 1)%nat; [|by left].
  destruct (markers !! i) as [curr|] eqn:Ec; [|by left].
  destruct (markers !! S i) as [next|]; [|by left].
  destruct (elems st !! curr) as [c|]; [|by left].
  destruct (elems st !! next) as [n|]; [|by left].
  destruct (_ && _); [|by apply IH].
  intros Hin. apply IH in Hin as [Hin|Hin].
  - apply updateMarkerRange_values in Hin as [->|Hin].
    + right. by eapply list_elem_of_lookup_2.
    + left. cbn [persistentMarkers] in Hin. by eapply values_delete.
  - right. by eapply list_elem_of_delete_inv.
Qed.

Lemma consolidateAllMarkers_values (st : Marker) (x : nat) :
  x ∈ JsMap.values (persistentMarkers (consolidateAllMarkers st)) ->
  x ∈ JsMap.values (persistentMarkers st).
Proof.
  unfold consolidateAllMarkers. destruct (_ <? 2)%nat; [done|].
  intros Hin. apply consolidate_for_values in Hin as [Hin|Hin]; [done|].
  by rewrite sort_by_perm in Hin.
Qed.










(** ** Re-anchoring by content *)

Lemma omap_cons_eq {A B : Type} (f : A -> option B) (x : A) (l : list A) :
  omap f (x :: l)
  = match f x with Some y => y :: omap f l | None => omap f l end.
Proof. reflexivity. Qed.

Lemma findIndex_undefined (lines : list string) : Js.findIndex None lines = None.
Proof.
  induction lines as [|l ls IH]; simpl; [done|].
  destruct (decide (Some l = None)); [done|]. by rewrite IH.
Qed.

(** *** Change blocks *)

(** The move pending for a block id, if any. *)
Lemma apply_block_move_get (blocks : list (string * BlockData))
    (id0 : string) (s0 e0 : Z) (id : string) :
  JsMap.get id (apply_block_move blocks (id0, s0, e0))
  = if decide (id0 = id)
    then (fun bd => mkBlockData s0 e0 (bd_userName bd) (bd_changes bd)
                                (bd_changeType bd))
           <$> JsMap.get id blocks
    else JsMap.get id blocks.
Proof.
  unfold apply_block_move.
  destruct (decide (id0 = id)) as [->|Hne].
  - destruct (JsMap.get id blocks) as [bd|] eqn:E; simpl.
    + apply get_set_eq.
    + exact E.
  - destruct (JsMap.get id0 blocks); [by apply get_set_ne|done].
Qed.

Lemma apply_block_move_keys (blocks : list (string * BlockData))
    (mv : string * Z * Z) :
  JsMap.keys (apply_block_move blocks mv) = JsMap.keys blocks.
Proof.
  destruct mv as [[id0 s0] e0]. unfold apply_block_move.
  destruct (JsMap.get id0 blocks) eqn:E; [|done].
  by eapply keys_set_present.
Qed.

Lemma fold_block_moves_keys (moves : list (string * Z * Z)) :
  forall blocks,
    JsMap.keys (fold_left apply_block_move moves blocks) = JsMap.keys blocks.
Proof.
  induction moves as [|mv moves IH]; intros blocks; simpl; [done|].
  by rewrite IH, apply_block_move_keys.
Qed.

Lemma fold_block_moves_other (moves : list (string * Z * Z)) (id : string) :
  id ∉ map (fun mv => mv.1.1) moves ->
  forall blocks,
    JsMap.get id (fold_left apply_block_move moves blocks)
    = JsMap.get id blocks.
Proof.
  induction moves as [|[[id0 s0] e0] moves IH]; intros Hnot blocks;
    cbn [fold_left]; [done|].
  cbn [map fst] in Hnot. apply not_elem_of_cons in Hnot as [Hne Hnot].
  rewrite IH by done. rewrite apply_block_move_get.
  by rewrite decide_False.
Qed.

Lemma fold_block_moves_hit (moves : list (string * Z * Z)) (id : string)
    (s e : Z) :
  NoDup (map (fun mv => mv.1.1) moves) -> (id, s, e) ∈ moves ->
  forall blocks bd,
    JsMap.get id blocks = Some bd ->
    JsMap.get id (fold_left apply_block_move moves blocks)
    = Some (mkBlockData s e (bd_userName bd) (bd_changes bd)
                        (bd_changeType bd)).
Proof.
  induction moves as [|[[id0 s0] e0] moves IH]; intros Hnd Hin blocks bd Hg;
    [by inversion Hin|].
  cbn [fold_left map fst] in *. apply NoDup_cons in Hnd as [Hfresh Hnd].
  apply elem_of_cons in Hin as [Heq|Hin].
  - injection Heq as <- <- <-.
    rewrite fold_block_moves_other by done.
    rewrite apply_block_move_get, decide_True by done. by rewrite Hg.
  - assert (Hne : id0 <> id).
    { intros ->. apply Hfresh. apply list_elem_of_fmap. by exists (id, s, e). }
    apply IH; [done|done|].
    rewrite apply_block_move_get, decide_False by done. exact Hg.
Qed.

Lemma block_move_id (newLines : list string) (id : string) (bd : BlockData)
    (mv : string * Z * Z) :
  block_move newLines (id, bd) = Some mv -> mv.1.1 = id.
Proof.
  unfold block_move. destruct (Js.findIndex _ _); [|done].
  destruct (_ || _); [|done]. by intros [= <-].
Qed.

Lemma block_moves_ids (newLines : list string)
    (blocks : list (string * BlockData)) :
  forall id, id ∈ map (fun mv => mv.1.1) (omap (block_move newLines) blocks)
             -> id ∈ JsMap.keys blocks.
Proof.
  intros id Hin. apply list_elem_of_fmap in Hin as (mv & -> & Hmv).
  apply list_elem_of_omap in Hmv as ([id' bd'] & Hin & Hmove).
  rewrite (block_move_id _ _ _ _ Hmove).
  apply list_elem_of_fmap. by exists (id', bd').
Qed.

Lemma block_moves_NoDup (newLines : list string)
    (blocks : list (string * BlockData)) :
  NoDup (JsMap.keys blocks) ->
  NoDup (map (fun mv => mv.1.1) (omap (block_move newLines) blocks)).
Proof.
  induction blocks as [|[id bd] blocks IH]; intros Hnd; [constructor|].
  cbn [JsMap.keys map fst] in Hnd. apply NoDup_cons in Hnd as [Hfresh Hnd].
  rewrite omap_cons_eq.
  destruct (block_move newLines (id, bd)) as [mv|] eqn:E; [|by apply IH].
  cbn [map]. apply NoDup_cons. split; [|by apply IH].
  rewrite (block_move_id _ _ _ _ E). intros Hin.
  apply Hfresh. by eapply block_moves_ids.
Qed.

Lemma ChangeBlock_adjust_get (oldLines newLines : list string)
    (blocks : list (string * BlockData)) (id : string) (bd : BlockData) :
  NoDup (JsMap.keys blocks) -> (id, bd) ∈ blocks ->
  JsMap.get id (ChangeBlock_adjustByContent oldLines newLines blocks)
  = Some (block_reanchored newLines bd).
Proof.
  intros Hnd Hin. unfold ChangeBlock_adjustByContent.
  pose proof (get_of_member _ _ _ Hnd Hin) as Hget.
  destruct (block_move newLines (id, bd)) as [[[id' s] e]|] eqn:Emv.
  - pose proof (block_move_id _ _ _ _ Emv) as Hid. simpl in Hid. subst id'.
    assert (Hmem : (id, s, e) ∈ omap (block_move newLines) blocks).
    { apply list_elem_of_omap. by exists (id, bd). }
    rewrite (fold_block_moves_hit _ id s e
               (block_moves_NoDup newLines blocks Hnd) Hmem blocks bd Hget).
    f_equal. unfold block_move in Emv. unfold block_reanchored, anchor_target.
    destruct (Js.findIndex _ _) as [j|]; [|done]. simpl.
    destruct (_ || _); [|done]. by injection Emv as <- <-.
  - rewrite fold_block_moves_other.
    + rewrite Hget. f_equal.
      unfold block_move in Emv. unfold block_reanchored, anchor_target.
      destruct (Js.findIndex _ _) as [j|]; [|done]. simpl.
      destruct (bool_decide_reflect
                  (Z.of_nat j + 1 <> bd_startLine bd)) as [?|Hs]; [done|].
      destruct (bool_decide_reflect
                  (Z.of_nat j + 1 + Z.of_nat (length (bd_changes bd)) - 1
                   <> bd_endLine bd)) as [?|He]; [done|].
      apply dec_stable in Hs, He. destruct bd; simpl in *. by subst.
    + intros Hmem. apply list_elem_of_fmap in Hmem as (mv & Hid & Hmv).
      apply list_elem_of_omap in Hmv as ([id' bd'] & Hin' & Hmove).
      pose proof (block_move_id _ _ _ _ Hmove) as Hid'. simpl in Hid'.
      assert (id' = id) by congruence. subst id'.
      pose proof (get_of_member _ _ _ Hnd Hin') as Hget'.
      assert (bd' = bd) by congruence. subst bd'. congruence.
Qed.

(** *** Gutter icons *)

Lemma icon_move_Some (oldLines newLines : list string) (key : IconKey)
    (icon : nat) (mv : IconMove) :
  icon_move oldLines newLines (key, icon) = Some mv ->
  key = KLine (mv_oldLine mv) /\ mv_icon mv = icon
  /\ anchor_target (old_line_content oldLines (mv_oldLine mv)) newLines
     = Some (mv_newLine mv)
  /\ mv_newLine mv <> mv_oldLine mv.
Proof.
  unfold icon_move, anchor_target. destruct key as [ln| |]; [|done|done].
  destruct (ln <=? Z.of_nat (length oldLines)); [|done].
  destruct (Js.findIndex _ _) as [j|] eqn:Ej; [|done].
  destruct (bool_decide_reflect (Z.of_nat j + 1 <> ln)); [|done].
  intros [= <-]. simpl. rewrite Ej. done.
Qed.

(** A pending move goes to the icon's target; an icon without a pending
    move is at its target. *)
Lemma icon_move_target (oldLines newLines : list string) (key : IconKey)
    (icon : nat) :
  match icon_move oldLines newLines (key, icon) with
  | Some mv =>
      key = KLine (mv_oldLine mv) /\ mv_icon mv = icon
      /\ icon_target oldLines newLines key = KLine (mv_newLine mv)
      /\ mv_newLine mv <> mv_oldLine mv
  | None => icon_target oldLines newLines key = key
  end.
Proof.
  destruct (icon_move oldLines newLines (key, icon)) as [mv|] eqn:Emv.
  - apply icon_move_Some in Emv as (-> & Hi & Ht & Hne).
    repeat split; [done| |done]. unfold icon_target. by rewrite Ht.
  - destruct key as [ln| |]; [|done|done].
    unfold icon_move in Emv. unfold icon_target, anchor_target.
    destruct (Z.leb_spec ln (Z.of_nat (length oldLines))) as [Hle|Hgt].
    + destruct (Js.findIndex _ _) as [j|]; [|done]. simpl.
      destruct (bool_decide_reflect (Z.of_nat j + 1 <> ln)) as [?|Heq];
        [done|].
      apply dec_stable in Heq. by rewrite Heq.
    + assert (Hnone : old_line_content oldLines ln = None).
      { unfold old_line_content. destruct (Z.ltb_spec ln 1); [done|].
        apply lookup_ge_None. lia. }
      by rewrite Hnone, findIndex_undefined.
Qed.


(** The moves of a map are pending exactly when some icon is to move. *)
Lemma moves_nil_iff (oldLines newLines : list string)
    (l : list (IconKey * nat)) :
  omap (icon_move oldLines newLines) l = [] <->
  ~ move_pending oldLines newLines l.
Proof.
  induction l as [|[key icon] l IH].
  - split; [|done]. intros _ (key & icon & Hin & _). inversion Hin.
  - rewrite omap_cons_eq.
    pose proof (icon_move_target oldLines newLines key icon) as Ht.
    destruct (icon_move oldLines newLines (key, icon)) as [mv|].
    + split; [done|]. intros Hno. exfalso. apply Hno.
      exists key, icon. split; [by left|].
      destruct Ht as (-> & _ & -> & Hne). congruence.
    + rewrite IH. split.
      * intros Hno (k & i & Hin & Hmv). apply elem_of_cons in Hin as [Heq|Hin].
        -- injection Heq as -> ->. done.
        -- apply Hno. by exists k, i.
      * intros Hno (k & i & Hin & Hmv). apply Hno. exists k, i.
        split; [by right|done].
Qed.

(** A move touches line keys only. *)
Lemma apply_icon_move_range (g : GutterIcons) (mv : IconMove)
    (key : IconKey) :
  is_range_key key ->
  JsMap.get key (icons (apply_icon_move g mv)) = JsMap.get key (icons g).
Proof.
  intros Hr. cbn [apply_icon_move icons].
  rewrite get_set_ne by (intros <-; exact Hr).
  apply get_delete_ne. intros <-. exact Hr.
Qed.

Lemma fold_icon_moves_range (moves : list IconMove) (key : IconKey) :
  is_range_key key ->
  forall g,
    JsMap.get key (icons (fold_left apply_icon_move moves g))
    = JsMap.get key (icons g).
Proof.
  intros Hr. induction moves as [|mv moves IH]; intros g; cbn [fold_left];
    [done|].
  rewrite IH. by apply apply_icon_move_range.
Qed.





(** How [updatePositions()] ends. *)
Lemma updatePositions_raises (g : GutterIcons) :
  GutterIcons_updatePositions g = SyntaxError <-> range_icon_held (icons g).
Proof.
  unfold GutterIcons_updatePositions, range_icon_held.
  induction (icons g) as [|[key icon] l IH]; cbn [JsMap.keys map fst forallb].
  - split; [done|]. intros (k & i & Hin & _). inversion Hin.
  - destruct key as [n|a b|a b]; cbn [selector_ok andb].
    + rewrite IH. split.
      * intros (k & i & Hin & Hr). exists k, i. split; [by right|done].
      * intros (k & i & Hin & Hr).
        apply elem_of_cons in Hin as [Heq|Hin];
          [injection Heq as -> ->; done|by exists k, i].
    + split; [|done]. intros _. exists (KRange a b), icon.
      split; [by left|done].
    + split; [|done]. intros _. exists (KRangeEnd a b), icon.
      split; [by left|done].
Qed.

(** The icons of a range are held after the moves exactly when they were
    held before. *)
Lemma range_icon_held_moves (moves : list IconMove) (g : GutterIcons) :
  range_icon_held (icons (fold_left apply_icon_move moves g))
  <-> range_icon_held (icons g).
Proof.
  assert (Hgen : forall l l' : list (IconKey * nat),
            (forall key, is_range_key key ->
                         JsMap.get key l = JsMap.get key l') ->
            range_icon_held l -> range_icon_held l').
  { intros l l' Hsame (key & icon & Hin & Hr).
    assert (Hk : key ∈ JsMap.keys l)
      by (apply list_elem_of_fmap; by exists (key, icon)).
    apply elem_keys_get in Hk as [x Hx]. rewrite (Hsame key Hr) in Hx.
    exists key, x. split; [by apply member_of_get|done]. }
  split; apply Hgen; intros key Hr; by rewrite fold_icon_moves_range.
Qed.

(** How [adjustByContent] ends: it raises exactly when some icon is to
    move while the gutter holds an icon of a range. *)
Lemma GutterIcons_adjust_completion (oldLines newLines : list string)
    (g : GutterIcons) :
  (GutterIcons_adjustByContent oldLines newLines g).1 = SyntaxError
  <-> move_pending oldLines newLines (icons g) /\ range_icon_held (icons g).
Proof.
  unfold GutterIcons_adjustByContent. cbv zeta.
  pose proof (moves_nil_iff oldLines newLines (icons g)) as Hnil.
  destruct (omap (icon_move oldLines newLines) (icons g)) as [|mv moves]
    eqn:Emoves.
  - cbn [length Nat.ltb Nat.leb fst]. split; [done|].
    intros [Hmv _]. exfalso. by apply (proj1 Hnil).
  - cbn [length Nat.ltb Nat.leb fst].
    rewrite updatePositions_raises, range_icon_held_moves.
    split; [|tauto]. intros Hr. split; [|done].
    assert (Hin : mv ∈ omap (icon_move oldLines newLines) (icons g))
      by (rewrite Emoves; by left).
    apply list_elem_of_omap in Hin as ([k i] & Hin & Emv).
    pose proof (icon_move_target oldLines newLines k i) as Ht.
    rewrite Emv in Ht. destruct Ht as (Hk & _ & Ht & Hne).
    exists k, i. split; [done|]. rewrite Ht, Hk. congruence.
Qed.




(** ** Burst detection *)

Lemma rangeEnd_of_cons (p : Z) (r : Recent) (run : list Recent) :
  rangeEnd_of p (r :: run) = rangeEnd_of (rc_line r) run.
Proof.
  unfold rangeEnd_of. rewrite last_cons. by destruct (last run).
Qed.

(** The lines of a chain count up from its anchor. *)
Lemma chain_lines (run : list Recent) :
  forall p i r, chain_from p run -> run !! i = Some r ->
                rc_line r = p + 1 + Z.of_nat i.
Proof.
  induction run as [|x run IH]; intros p i r Hc Hr; [done|].
  destruct Hc as [Hx Hc]. destruct i as [|i]; simpl in Hr.
  - injection Hr as <-. lia.
  - rewrite (IH _ _ _ Hc Hr). lia.
Qed.

Lemma chain_rangeEnd (run : list Recent) (p : Z) :
  chain_from p run -> rangeEnd_of p run = p + Z.of_nat (length run).
Proof.
  revert p. induction run as [|x run IH]; intros p Hc.
  - unfold rangeEnd_of. simpl. lia.
  - destruct Hc as [Hx Hc]. rewrite rangeEnd_of_cons, (IH _ Hc). simpl. lia.
Qed.

Lemma consecutive_after_chain (l : list Recent) (p : Z) :
  chain_from p (consecutive_after p l).
Proof.
  revert p. induction l as [|x l IH]; intros p; simpl; [done|].
  destruct (Z.eqb_spec (rc_line x) (p + 1)); simpl; [|done].
  split; [done|apply IH].
Qed.



Lemma consecutive_of_length (l : list Recent) :
  (length (consecutive_of l) <= length l)%nat.
Proof.
  destruct l as [|x l]; simpl; [done|].
  assert (H : forall p, (length (consecutive_after p l) <= length l)%nat).
  { induction l as [|y l IH]; intros p; simpl; [done|].
    destruct (rc_line y =? p + 1); simpl; [|lia].
    specialize (IH (rc_line y)). lia. }
  specialize (H (rc_line x)). lia.
Qed.

(** A chain of at least two entries: its first entry, its last entry, and
    the line of every entry in between. *)
Lemma consecutive_ends (run : list Recent) :
  is_consecutive run -> (2 <= length run)%nat ->
  exists a b,
    head run = Some a /\ last run = Some b
    /\ rc_line b = rangeEnd_of (rc_line a) run
    /\ rc_line b = rc_line a + Z.of_nat (length run) - 1
    /\ (forall i r, run !! i = Some r -> rc_line r = rc_line a + Z.of_nat i).
Proof.
  intros Hc Hlen. destruct run as [|a run]; [simpl in Hlen; lia|].
  simpl in Hc.
  destruct (last (a :: run)) as [b|] eqn:Elast;
    [|apply last_None in Elast; done].
  exists a, b. split; [done|]. split; [done|].
  assert (Hb : rc_line b = rangeEnd_of (rc_line a) (a :: run)).
  { unfold rangeEnd_of. by rewrite Elast. }
  split; [exact Hb|]. split.
  - rewrite Hb, rangeEnd_of_cons, (chain_rangeEnd _ _ Hc). simpl length. lia.
  - intros [|i] r Hr; simpl in Hr.
    + injection Hr as <-. lia.
    + rewrite (chain_lines _ _ _ _ Hc Hr). lia.
Qed.


Lemma record_facts_other (kind : ChangeKind) (u : string)
    (run : list Recent) (l : Z) :
  l ∉ map rc_line run ->
  forall store, JsMap.get l (record_facts kind u run store) = JsMap.get l store.
Proof.
  unfold record_facts.
  induction run as [|r run IH]; intros Hnot store; cbn [fold_left]; [done|].
  cbn [map] in Hnot. apply not_elem_of_cons in Hnot as [Hne Hnot].
  rewrite IH by done. by apply get_set_ne.
Qed.



Lemma consecutive_of_consecutive (l : list Recent) :
  is_consecutive (consecutive_of l).
Proof. destruct l as [|x l]; simpl; [done|]. apply consecutive_after_chain. Qed.

Lemma consecutive_of_head (l : list Recent) :
  head (consecutive_of l) = head l.
Proof. by destruct l. Qed.

(** The two tests that guard the range branch of the detectors. *)
Lemma range_tests (window : list Recent) :
  let sorted := sort_by rc_line window in
  let run := consecutive_of sorted in
  let rangeStart := match sorted with r :: _ => rc_line r | [] => 0 end in
  ((2 <= length run)%nat ->
   exists a b,
     head run = Some a /\ last run = Some b
     /\ rangeStart = rc_line a /\ rangeEnd_of rangeStart run = rc_line b
     /\ (1 <? length window)%nat = true
     /\ (2 <=? length run)%nat && (rangeStart <? rangeEnd_of rangeStart run)
        = true)
  /\ ((length run < 2)%nat ->
      (1 <? length window)%nat = false
      \/ (2 <=? length run)%nat && (rangeStart <? rangeEnd_of rangeStart run)
         = false).
Proof.
  intros sorted run rangeStart. split.
  - intros Hlen.
    destruct (consecutive_ends run (consecutive_of_consecutive sorted) Hlen)
      as (a & b & Ha & Hb & Hend & Hlast & _).
    assert (Hstart : rangeStart = rc_line a).
    { subst rangeStart run. rewrite consecutive_of_head in Ha.
      destruct sorted; [done|]. simpl in Ha. congruence. }
    exists a, b. split; [done|]. split; [done|]. split; [done|].
    rewrite Hstart, <- Hend. split; [done|]. split.
    + apply Nat.ltb_lt.
      pose proof (consecutive_of_length sorted) as Hle. fold run in Hle.
      pose proof (Permutation_length (sort_by_perm rc_line window)) as Hp.
      fold sorted in Hp. lia.
    + apply andb_true_intro. split; [by apply Nat.leb_le|].
      apply Z.ltb_lt. lia.
  - intros Hlen. right.
    destruct (Nat.leb_spec 2 (length run)); [lia|done].
Qed.

Lemma detectRangeEdit_range (ts now line : Z) (content baseline u : string)
    (s : Side) :
  let window :=
    prune now (recentEdits s
               ++ [mkRecent line (Js.line_or_empty (Js.split content) line)
                            ts]) in
  let run := consecutive_of (sort_by rc_line window) in
  (2 <= length run)%nat ->
  exists a b s',
    head run = Some a /\ last run = Some b
    /\ detectRangeEdit ts now line content baseline u s
       = (IsRange (rc_line a) (rc_line b), s')
    /\ recentEdits s' = []
    /\ facts s' = record_facts edited u run (facts s).
Proof.
  intros window run Hlen.
  destruct (proj1 (range_tests window) Hlen)
    as (a & b & Ha & Hb & Hstart & Hend & Hw & Htests).
  unfold detectRangeEdit. cbv zeta. fold window. rewrite Hw.
  unfold run in *. rewrite Htests, Hend, Hstart.
  eexists a, b, _. split; [done|]. split; [done|].
  split; [reflexivity|]. split; reflexivity.
Qed.

Lemma detectRangeEdit_single (ts now line : Z) (content baseline u : string)
    (s : Side) :
  let window :=
    prune now (recentEdits s
               ++ [mkRecent line (Js.line_or_empty (Js.split content) line)
                            ts]) in
  let run := consecutive_of (sort_by rc_line window) in
  (length run < 2)%nat ->
  detectRangeEdit ts now line content baseline u s
  = (NotRange,
     mkSide (recentAdditions s) window (facts s) (reservations s) (marker s)).
Proof.
  intros window run Hlen.
  unfold detectRangeEdit. cbv zeta. fold window.
  destruct (proj2 (range_tests window) Hlen) as [Hw|Htests].
  - by rewrite Hw.
  - unfold run in *. rewrite Htests. by destruct (1 <? length window)%nat.
Qed.


Lemma detectRangeInsertion_single (ts now line : Z)
    (content baseline u : string) (s : Side) :
  let window :=
    prune now (recentAdditions s
               ++ [mkRecent line (Js.line_or_empty (Js.split content) line)
                            ts]) in
  let run := consecutive_of (sort_by rc_line window) in
  (length run < 2)%nat \/ ~ insertion_between baseline line run ->
  detectRangeInsertion ts now line content baseline u s
  = (NotRange,
     mkSide window (recentEdits s) (facts s) (reservations s) (marker s)).
Proof.
  intros window run Hcase.
  unfold detectRangeInsertion. cbv zeta. fold window.
  destruct (1 <? length window)%nat eqn:Hw; [|done]. fold run.
  destruct ((2 <=? length run)%nat
            && (match sort_by rc_line window with
                | r :: _ => rc_line r
                | [] => 0
                end <? _)) eqn:Htests; [|done].
  destruct (Js.truthy baseline && _ && _ && _) eqn:Hgate; [|done].
  exfalso.
  apply andb_prop in Htests as [Hlen _]. apply Nat.leb_le in Hlen.
  destruct Hcase as [Hshort|Hnot]; [lia|]. apply Hnot.
  apply andb_prop in Hgate as [Hgate Hstart].
  apply andb_prop in Hgate as [Hgate Hline].
  apply andb_prop in Hgate as [Htruthy _].
  rewrite Htruthy in Hline, Hstart.
  split; [by destruct baseline|]. split; [by apply Z.leb_le|].
  intros a Ha. subst run. rewrite consecutive_of_head in Ha.
  destruct (sort_by rc_line window); [done|]. simpl in Ha.
  injection Ha as <-. by apply Z.leb_le.
Qed.




(** ** Concrete runs *)

(** Two icons on lines 1 and 2, one line inserted above them: the two
    pending moves (1 to 2, 2 to 3) run into one another and only the second
    icon is still held afterwards. *)
Example gutter_moves_collide :
  GutterIcons_adjustByContent ["a"; "b"] ["x"; "a"; "b"]
    (mkGutterIcons
       [mkIconEl 1 None "User A" added; mkIconEl 2 None "User A" added]
       [(KLine 1, 0%nat); (KLine 2, 1%nat)])
  = (Returned,
     mkGutterIcons
       [mkIconEl 2 None "User A" added; mkIconEl 3 None "User A" added]
       [(KLine 3, 1%nat)]).
Proof. reflexivity. Qed.

(** Two buffers of different lengths. *)
Lemma mergeCode_positional_witness :
  Js.split (mergeCode (Js.join ["a"; "b"; "c"]) (Js.join ["a"; "x"]))
  = ["a"; "x"; "c"].
Proof.
  pose proof (mergeCode_positional (Js.join ["a"; "b"; "c"])
                                   (Js.join ["a"; "x"]))
    as (Hlen & Hdiff & Hsame & Htarget & _).
  apply list_eq. intros [|[|[|i]]].
  - apply (proj1 (Hsame 0%nat "a"%string "a"%string eq_refl eq_refl eq_refl)).
  - apply (Hdiff 1%nat "b"%string "x"%string eq_refl eq_refl). discriminate.
  - apply (Htarget 2%nat "c"%string eq_refl eq_refl).
  - transitivity (@None string); [|reflexivity].
    apply lookup_ge_None. rewrite Hlen. simpl. lia.
Defined.

(** Facts on lines 3, 1, 2 and 5, of mixed kinds. *)
Lemma createChangeBlocks_groups_witness :
  createChangeBlocks 17
    [mkLineFact added "User A" 3 "c" 0; mkLineFact edited "User A" 1 "a" 0;
     mkLineFact added "User A" 2 "b" 0; mkLineFact added "User A" 5 "e" 0]
    "User A"
  = [mkBlock "User A-block-17-0" 1 3 ["a"; "b"; "c"] edited;
     mkBlock "User A-block-17-1" 5 5 ["e"] added]
  /\ exists runs,
       Forall2 block_of_run runs
         (createChangeBlocks 17
            [mkLineFact added "User A" 3 "c" 0;
             mkLineFact edited "User A" 1 "a" 0;
             mkLineFact added "User A" 2 "b" 0;
             mkLineFact added "User A" 5 "e" 0]
            "User A").
Proof.
  split; [reflexivity|].
  destruct (createChangeBlocks_groups 17
              [mkLineFact added "User A" 3 "c" 0;
               mkLineFact edited "User A" 1 "a" 0;
               mkLineFact added "User A" 2 "b" 0;
               mkLineFact added "User A" 5 "e" 0] "User A")
    as (_ & _ & runs & _ & _ & _ & Hblocks).
  exists runs. eapply Forall2_impl; [exact Hblocks|]. by intros run b [Hb _].
Defined.

(* ================================================================== *)
(** * Further properties *)
(* ================================================================== *)

(** ** [mergeCode]: closed form *)

Lemma mergeCode_lines_closed (tl sl : list string) :
  mergeCode_lines tl sl = sl ++ drop (length sl) tl.
Proof.
  apply list_eq. intros i. rewrite mergeCode_lines_both.
  destruct (sl !! i) as [s|] eqn:Es.
  - rewrite lookup_app_l by (by eapply lookup_lt_Some).
    rewrite Es. destruct (tl !! i) as [t|]; [|done].
    destruct (String.eqb_spec t s); by subst.
  - apply lookup_ge_None in Es.
    rewrite lookup_app_r by done. rewrite lookup_drop.
    replace (length sl + (i - length sl))%nat with i by lia.
    by destruct (tl !! i).
Qed.

(** X1.  The merged buffer is the source buffer followed by the lines of
    the target buffer that lie beyond the source's last line. *)
Theorem mergeCode_source_then_surplus (T S : string) :
  Js.split (mergeCode T S)
  = Js.split S ++ drop (length (Js.split S)) (Js.split T).
Proof. rewrite split_mergeCode. apply mergeCode_lines_closed. Qed.

(** X2.  Merging the same source a second time changes nothing. *)
Theorem mergeCode_again (T S : string) :
  mergeCode (mergeCode T S) S = mergeCode T S.
Proof.
  unfold mergeCode at 1. rewrite split_mergeCode.
  unfold mergeCode. f_equal.
  rewrite !mergeCode_lines_closed. by rewrite drop_app_length.
Qed.

(** ** [CodeEditor.handleContentChange] *)

(** X3.  The event raised by an input concerns the active line.  An
    addition is raised only when the line count grew and the active line
    lies beyond the previous line count; an edit only when the line count
    did not shrink, the active line existed before, and its text
    differs from what it was. *)
Theorem line_event_sound (previousContent : string) (previousLineCount : Z)
    (currentContent : string) (currentLine : option Z) (ev : LineEvent) :
  line_event previousContent previousLineCount currentContent currentLine
  = Some ev ->
  match ev with
  | LineAdded l =>
      currentLine = Some l
      /\ previousLineCount < getLineCount currentContent
      /\ previousLineCount < l
  | LineEdited l =>
      currentLine = Some l
      /\ previousLineCount <= getLineCount currentContent
      /\ l <= Z.of_nat (length (Js.split previousContent))
      /\ old_line_content (Js.split previousContent) l
         <> old_line_content (Js.split currentContent) l
  end.
Proof.
  unfold line_event. destruct currentLine as [l|]; [|done].
  destruct (Z.gtb_spec (getLineCount currentContent) previousLineCount)
    as [Hgrow|Hsame].
  - destruct (Z.gtb_spec l previousLineCount) as [Hbeyond|Hwithin].
    + intros [= <-]. repeat split; lia.
    + destruct (Z.leb_spec l (Z.of_nat (length (Js.split previousContent))));
        [|done].
      destruct (bool_decide_reflect
                  (old_line_content (Js.split previousContent) l
                   <> old_line_content (Js.split currentContent) l));
        [|done].
      intros [= <-]. repeat split; [lia|done|done].
  - destruct (Z.eqb_spec (getLineCount currentContent) previousLineCount);
      [|done].
    destruct (Z.leb_spec l (Z.of_nat (length (Js.split previousContent))));
      [|done]. simpl.
    destruct (bool_decide_reflect
                (old_line_content (Js.split previousContent) l
                 <> old_line_content (Js.split currentContent) l));
      [|done].
    intros [= <-]. repeat split; [lia|done|done].
Qed.

Lemma line_event_sound_witness :
  line_event (Js.join ["a"; "b"]) 2 (Js.join ["a"; "c"]) (Some 2)
  = Some (LineEdited 2)
  /\ old_line_content (Js.split (Js.join ["a"; "b"])) 2
     <> old_line_content (Js.split (Js.join ["a"; "c"])) 2.
Proof.
  assert (H : line_event (Js.join ["a"; "b"]) 2 (Js.join ["a"; "c"]) (Some 2)
              = Some (LineEdited 2)) by reflexivity.
  split; [exact H|].
  exact (proj2 (proj2 (proj2 (line_event_sound _ _ _ _ _ H)))).
Defined.

(** X4.  An input that leaves the text as it was raises no event,
    wherever the active line is. *)
Theorem line_event_unchanged (content : string) (currentLine : option Z) :
  line_event content (getLineCount content) content currentLine = None.
Proof.
  unfold line_event. destruct currentLine as [l|]; [|done].
  destruct (Z.gtb_spec (getLineCount content) (getLineCount content)); [lia|].
  rewrite Z.eqb_refl. simpl.
  destruct (l <=? _); [|done].
  rewrite bool_decide_eq_false_2; [done|]. intros Hne. by apply Hne.
Qed.

Lemma line_event_added_beyond (previousContent : string)
    (previousLineCount : Z) (currentContent : string)
    (currentLine : option Z) (l : Z) :
  line_event previousContent previousLineCount currentContent currentLine
  = Some (LineAdded l) ->
  previousLineCount < l.
Proof.
  unfold line_event. destruct currentLine as [l'|]; [|done].
  destruct (getLineCount currentContent >? previousLineCount).
  - destruct (Z.gtb_spec l' previousLineCount); [by intros [= <-]|].
    by destruct (_ && _).
  - destruct (_ && _); [|done]. by destruct (bool_decide _).
Qed.

(** X5.  An addition raised by the editor is never reported as a range
    insertion when the baseline has no more lines than the editor counted
    before the input: the triggering line then lies past the baseline. *)
Theorem editor_addition_never_range (previousContent : string)
    (previousLineCount : Z) (currentContent : string)
    (currentLine : option Z) (l : Z) (baseline : string)
    (ts now : Z) (u : string) (s : Side) :
  line_event previousContent previousLineCount currentContent currentLine
  = Some (LineAdded l) ->
  Z.of_nat (length (Js.split baseline)) <= previousLineCount ->
  (detectRangeInsertion ts now l currentContent baseline u s).1 = NotRange.
Proof.
  intros Hev Hbase.
  apply line_event_added_beyond in Hev.
  rewrite detectRangeInsertion_single; [done|].
  right. intros (_ & Hline & _). lia.
Qed.

Lemma editor_addition_never_range_witness :
  let prev := Js.join ["a"; "b"] in
  let cur := Js.join ["a"; "b"; "c"] in
  (detectRangeInsertion 100 100 3 cur prev "User A"
     (mkSide [mkRecent 2 "b" 0] [] [] [] emptyMarker)).1 = NotRange.
Proof.
  intros prev cur.
  apply (editor_addition_never_range prev (getLineCount prev) cur (Some 3) 3
           prev 100 100 "User A").
  - reflexivity.
  - vm_compute. discriminate.
Defined.

(** ** The burst window *)

Lemma prune_fresh (now : Z) (recent : list Recent) :
  Forall (fun r => now - rc_timestamp r < 500) (prune now recent).
Proof.
  apply Forall_forall. intros r Hr. unfold prune in Hr.
  by apply list_elem_of_filter in Hr as [Hr _].
Qed.

(** X6.  Whatever an event turns out to be, the window a detector leaves
    behind holds no entry that is 500 ms old or older at the time of the
    event. *)
Theorem window_fresh (ts now line : Z) (content baseline u : string)
    (s : Side) :
  Forall (fun r => now - rc_timestamp r < 500)
         (recentEdits (detectRangeEdit ts now line content baseline u s).2)
  /\ Forall (fun r => now - rc_timestamp r < 500)
            (recentAdditions
               (detectRangeInsertion ts now line content baseline u s).2).
Proof.
  split.
  - unfold detectRangeEdit. cbv zeta.
    destruct (1 <? _)%nat; [|apply prune_fresh].
    destruct (_ && _); [constructor|apply prune_fresh].
  - unfold detectRangeInsertion. cbv zeta.
    destruct (1 <? _)%nat; [|apply prune_fresh].
    destruct ((2 <=? _)%nat && _); [|apply prune_fresh].
    destruct (_ && _); [constructor|apply prune_fresh].
Qed.

Lemma prune_stale (now : Z) (recent : list Recent) :
  (forall r, r ∈ recent -> 500 <= now - rc_timestamp r) ->
  prune now recent = [].
Proof.
  intros Hstale. unfold prune.
  induction recent as [|r recent IH]; [done|].
  rewrite filter_cons_False.
  - apply IH. intros r' Hr'. apply Hstale. by right.
  - specialize (Hstale r ltac:(by left)). lia.
Qed.

Lemma stale_run_short (now : Z) (recent : list Recent) (entry : Recent) :
  (forall r, r ∈ recent -> 500 <= now - rc_timestamp r) ->
  (length (consecutive_of
             (sort_by rc_line (prune now (recent ++ [entry])))) < 2)%nat.
Proof.
  intros Hstale.
  pose proof (consecutive_of_length
                (sort_by rc_line (prune now (recent ++ [entry])))) as Hle.
  pose proof (Permutation_length
                (sort_by_perm rc_line (prune now (recent ++ [entry])))) as Hp.
  assert (Hw : (length (prune now (recent ++ [entry])) <= 1)%nat).
  { unfold prune. rewrite filter_app. fold (prune now recent).
    rewrite (prune_stale _ _ Hstale). simpl.
    pose proof (length_filter (fun a => now - rc_timestamp a < 500) [entry]).
    simpl in *. lia. }
  lia.
Qed.

(** X7.  Events separated by idle time are never fused: when every entry
    still in the window is 500 ms old or older, an edit is handled as a
    single-line event, whatever lines the old entries were on; its fact
    is recorded for the triggering line. *)
Theorem idle_edit_is_single (ts now line : Z) (content baseline u : string)
    (s : Side) :
  (forall r, r ∈ recentEdits s -> 500 <= now - rc_timestamp r) ->
  (onLineEdited ts now line content baseline u s).1 = NotRange
  /\ facts (onLineEdited ts now line content baseline u s).2
     = JsMap.set line
         (mkLineFact edited u line
                     (Js.line_or_empty (Js.split content) line) now)
         (facts s).
Proof.
  intros Hstale. unfold onLineEdited.
  rewrite detectRangeEdit_single by (by apply stale_run_short).
  done.
Qed.

Lemma idle_edit_is_single_witness :
  let content := Js.join ["a"; "b"; "c"] in
  (onLineEdited 1000 1000 3 content content "User A"
     (mkSide [] [mkRecent 2 "b" 0] [] [] emptyMarker)).1 = NotRange.
Proof.
  intros content.
  apply (idle_edit_is_single 1000 1000 3 content content "User A").
  intros r Hr. apply list_elem_of_singleton in Hr. subst r. simpl. lia.
Defined.

(** ** The reservation ledger *)

(** X8.  The last writer wins, line by line: after a reservation of a
    line, a check of that line by the same author reports no conflict, a
    check by any other author reports the reserving author and the time of
    the reservation, and the checks of every other line are as before. *)
Theorem reservation_last_writer (now : Z) (u v : string)
    (res : list (Z * Reservation)) (l : Z) :
  checkOverlap l v (reserveTerritory now u res l)
  = (if decide (u = v) then None else Some (mkReservation u now))
  /\ forall l', l' <> l ->
       checkOverlap l' v (reserveTerritory now u res l)
       = checkOverlap l' v res.
Proof.
  unfold checkOverlap, reserveTerritory. split.
  - rewrite get_set_eq. simpl.
    destruct (decide (u = v)) as [->|Hne].
    + rewrite bool_decide_eq_false_2; [done|]. intros H'. by apply H'.
    + by rewrite bool_decide_eq_true_2.
  - intros l' Hl'. by rewrite get_set_ne.
Qed.

Lemma lines_from_to_elem (a b l : Z) :
  l ∈ lines_from_to a b <-> a <= l <= b.
Proof.
  unfold lines_from_to. rewrite list_elem_of_fmap. split.
  - intros (k & -> & Hk). apply elem_of_seq in Hk. lia.
  - intros Hl. exists (Z.to_nat (l - a)). split; [lia|].
    apply elem_of_seq. lia.
Qed.

Lemma fold_reserve_keeps (now : Z) (u : string) (ls : list Z) (l : Z) :
  forall res,
    JsMap.get l res = Some (mkReservation u now) ->
    JsMap.get l (fold_left (reserveTerritory now u) ls res)
    = Some (mkReservation u now).
Proof.
  induction ls as [|x ls IH]; intros res Hres; cbn [fold_left]; [done|].
  apply IH. unfold reserveTerritory.
  destruct (decide (x = l)) as [->|Hne].
  - apply get_set_eq.
  - by rewrite get_set_ne.
Qed.

Lemma fold_reserve_get (now : Z) (u : string) (ls : list Z) (l : Z) :
  l ∈ ls ->
  forall res,
    JsMap.get l (fold_left (reserveTerritory now u) ls res)
    = Some (mkReservation u now).
Proof.
  induction ls as [|x ls IH]; intros Hin res; [by inversion Hin|].
  cbn [fold_left]. apply elem_of_cons in Hin as [->|Hin].
  - apply fold_reserve_keeps. unfold reserveTerritory. apply get_set_eq.
  - by apply IH.
Qed.

(** X9.  A range event reserves every line of the range for its author:
    after a detector has returned the range [a..b], each of these lines is
    reserved for the author at the time of the event. *)
Theorem range_event_reserves (ts now line : Z) (content baseline u : string)
    (s s' : Side) (a b : Z) :
  detectRangeEdit ts now line content baseline u s = (IsRange a b, s')
  \/ detectRangeInsertion ts now line content baseline u s
     = (IsRange a b, s') ->
  forall l, a <= l <= b ->
            JsMap.get l (reservations s') = Some (mkReservation u now).
Proof.
  intros [Hdet|Hdet] l Hl.
  - unfold detectRangeEdit in Hdet. cbv zeta in Hdet.
    destruct (1 <? _)%nat; [|done].
    destruct (_ && _); [|done].
    injection Hdet as <- <- <-. cbn [reservations].
    apply fold_reserve_get. by apply lines_from_to_elem.
  - unfold detectRangeInsertion in Hdet. cbv zeta in Hdet.
    destruct (1 <? _)%nat; [|done].
    destruct ((2 <=? _)%nat && _); [|done].
    destruct (_ && _); [|done].
    injection Hdet as <- <- <-. cbn [reservations].
    apply fold_reserve_get. by apply lines_from_to_elem.
Qed.

Lemma range_event_reserves_witness :
  let content := Js.join ["a"; "b"; "c"] in
  let out :=
    detectRangeEdit 100 100 3 content content "User A"
      (mkSide [] [mkRecent 2 "b" 0] [] [] emptyMarker) in
  out.1 = IsRange 2 3
  /\ JsMap.get 3 (reservations out.2) = Some (mkReservation "User A" 100).
Proof.
  intros content out. split; [reflexivity|].
  apply (range_event_reserves 100 100 3 content content "User A"
           (mkSide [] [mkRecent 2 "b" 0] [] [] emptyMarker) out.2 2 3).
  - left. reflexivity.
  - lia.
Defined.

(** ** [createChangeBlocks]: the blocks of a push *)

Lemma createChangeBlocks_runs (now : Z) (facts : list LineFact)
    (u : string) :
  Forall2 block_of_run (runs_of (sort_by lf_lineNumber facts))
          (createChangeBlocks now facts u).
Proof.
  unfold createChangeBlocks.
  destruct facts as [|f0 facts']; [constructor|].
  destruct (sort_by lf_lineNumber (f0 :: facts')) as [|x l] eqn:Es.
  { exfalso. pose proof (sort_by_perm lf_lineNumber (f0 :: facts')) as Hp.
    rewrite Es in Hp. by apply Permutation_nil_cons in Hp. }
  simpl fold_left. cbn [runs_of].
  destruct (group_fold u now l [] (new_block u now 0 x) [x])
    as (B & cb' & Hfold & Hall); [done| |].
  { repeat split; simpl. unfold run_kind. simpl.
    by destruct (lf_changeType x). }
  simpl in Hfold. rewrite Hfold. exact Hall.
Qed.

Lemma runs_of_concat (l : list LineFact) : concat (runs_of l) = l.
Proof. destruct l as [|x l]; [done|]. simpl. by rewrite runs_from_concat. Qed.

Lemma runs_of_runs (l : list LineFact) :
  Forall (fun r => r <> [] /\ is_run r) (runs_of l).
Proof.
  destruct l as [|x l]; [constructor|]. simpl.
  by apply (runs_from_runs l [x] _ x); [apply is_run_singleton|..].
Qed.

Lemma runs_of_separated (l : list LineFact) : runs_separated (runs_of l).
Proof.
  destruct l as [|x l]; [intros i r1 r2 a b H1; done|]. simpl.
  apply runs_from_separated; [done|]. simpl. by intros a [= <-].
Qed.

Lemma is_run_lines (run : list LineFact) (a : LineFact) :
  is_run run -> head run = Some a ->
  forall i r, run !! i = Some r ->
              lf_lineNumber r = lf_lineNumber a + Z.of_nat i.
Proof.
  intros Hrun Ha. rewrite head_lookup in Ha.
  induction i as [|i IH]; intros r Hr.
  - assert (r = a) by congruence. subst. lia.
  - destruct (lookup_lt_is_Some_2 run i) as [p Hp].
    { apply lookup_lt_Some in Hr. lia. }
    rewrite (Hrun i p r Hp Hr), (IH p Hp). lia.
Qed.

Lemma block_of_run_spans (run : list LineFact) (b : Block) :
  run <> [] -> is_run run -> block_of_run run b -> block_spans b.
Proof.
  intros Hne Hrun (Hhd & Hlst & Hch & _).
  destruct (head run) as [a|] eqn:Ea; [|done].
  destruct (last run) as [z|] eqn:Ez; [|done].
  simpl in Hhd, Hlst. injection Hhd as Hs. injection Hlst as He.
  rewrite last_lookup in Ez.
  pose proof (is_run_lines run a Hrun Ea _ _ Ez) as Hz.
  assert (Hlen : (0 < length run)%nat) by (destruct run; [done|simpl; lia]).
  unfold block_spans. rewrite Hch, length_map. lia.
Qed.

(** X10.  Every block of [createChangeBlocks] starts no later than it
    ends and carries exactly one content line per line it spans. *)
Theorem createChangeBlocks_spans (now : Z) (facts : list LineFact)
    (u : string) :
  Forall block_spans (createChangeBlocks now facts u).
Proof.
  pose proof (createChangeBlocks_runs now facts u) as Hall.
  pose proof (runs_of_runs (sort_by lf_lineNumber facts)) as Hruns.
  revert Hruns. induction Hall as [|run b runs blocks Hb Hall IH];
    intros Hruns; [constructor|].
  inversion Hruns as [|? ? [Hne Hrun] Hrest]; subst.
  constructor; [by eapply block_of_run_spans|by apply IH].
Qed.

(** X11.  The blocks together carry the content of every fact exactly
    once, in the order of the line numbers. *)
Theorem createChangeBlocks_contents (now : Z) (facts : list LineFact)
    (u : string) :
  concat (map changes (createChangeBlocks now facts u))
  = map lf_lineContent (sort_by lf_lineNumber facts).
Proof.
  pose proof (createChangeBlocks_runs now facts u) as Hall.
  assert (Hgen : forall runs blocks,
            Forall2 block_of_run runs blocks ->
            concat (map changes blocks) = map lf_lineContent (concat runs)).
  { intros runs blocks H. induction H as [|run b runs blocks Hb H IH]; [done|].
    destruct Hb as (_ & _ & Hch & _).
    cbn [map concat]. rewrite map_app, Hch, IH. done. }
  rewrite (Hgen _ _ Hall). by rewrite runs_of_concat.
Qed.

Lemma sorted_strict {A : Type} (key : A -> Z) (l : list A) :
  StronglySorted (key_le key) l -> NoDup (map key l) ->
  StronglySorted (fun a b => key a < key b) l.
Proof.
  induction 1 as [|x l Hl IH Hx]; intros Hnd; [constructor|].
  cbn [map] in Hnd. apply NoDup_cons in Hnd as [Hfresh Hnd].
  constructor; [by apply IH|].
  apply Forall_forall. intros y Hy.
  rewrite Forall_forall in Hx. specialize (Hx y Hy). unfold key_le in Hx.
  assert (key y <> key x).
  { intros Heq. apply Hfresh. rewrite <- Heq. apply list_elem_of_fmap. eauto. }
  lia.
Qed.

Lemma concat_neighbours_ordered {A : Type} (R : A -> A -> Prop)
    (runs : list (list A)) :
  StronglySorted R (concat runs) ->
  forall i r1 r2 a b,
    runs !! i = Some r1 -> runs !! S i = Some r2 ->
    a ∈ r1 -> b ∈ r2 -> R a b.
Proof.
  induction runs as [|r runs IH]; intros Hs i r1 r2 a b H1 H2 Ha Hb;
    [done|].
  cbn [concat] in Hs. destruct i as [|i]; simpl in H1, H2.
  - injection H1 as <-. destruct runs as [|r' runs]; [done|].
    simpl in H2. injection H2 as <-.
    eapply StronglySorted_app_1_elem_of; [exact Hs|done|].
    cbn [concat]. apply elem_of_app. by left.
  - assert (Hs' : StronglySorted R (concat runs))
      by (by eapply StronglySorted_app_1_r).
    exact (IH Hs' i r1 r2 a b H1 H2 Ha Hb).
Qed.

(** X12.  When no two facts share a line number, two neighbouring blocks
    are separated by at least one line that belongs to neither. *)
Theorem createChangeBlocks_separated (now : Z) (facts : list LineFact)
    (u : string) :
  NoDup (map lf_lineNumber facts) ->
  forall i b1 b2,
    createChangeBlocks now facts u !! i = Some b1 ->
    createChangeBlocks now facts u !! S i = Some b2 ->
    endLine b1 + 1 < startLine b2.
Proof.
  intros Hnd i b1 b2 H1 H2.
  pose proof (createChangeBlocks_runs now facts u) as Hall.
  destruct (Forall2_lookup_r _ _ _ _ _ Hall H1) as (r1 & Hr1 & Hb1).
  destruct (Forall2_lookup_r _ _ _ _ _ Hall H2) as (r2 & Hr2 & Hb2).
  destruct Hb1 as (_ & Hlast & _). destruct Hb2 as (Hhead & _).
  destruct (last r1) as [a|] eqn:Ea; [|done].
  destruct (head r2) as [b|] eqn:Eb; [|done].
  simpl in Hlast, Hhead. injection Hlast as <-. injection Hhead as <-.
  pose proof (runs_of_separated _ i r1 r2 a b Hr1 Hr2 Ea Eb) as Hgap.
  assert (Hstrict : StronglySorted
            (fun x y => lf_lineNumber x < lf_lineNumber y)
            (concat (runs_of (sort_by lf_lineNumber facts)))).
  { rewrite runs_of_concat. apply sorted_strict.
    - apply sort_by_sorted.
    - pose proof (Permutation_map lf_lineNumber
                    (sort_by_perm lf_lineNumber facts)) as Hp.
      by rewrite Hp. }
  pose proof (concat_neighbours_ordered _ _ Hstrict i r1 r2 a b Hr1 Hr2
                (last_Some_elem_of _ _ Ea) (head_Some_elem_of _ _ Eb)).
  simpl in *. lia.
Qed.

Lemma createChangeBlocks_separated_witness :
  let facts :=
    [mkLineFact added "User A" 5 "e" 0; mkLineFact added "User A" 1 "a" 0;
     mkLineFact added "User A" 2 "b" 0] in
  NoDup (map lf_lineNumber facts)
  /\ match createChangeBlocks 17 facts "User A" with
     | b1 :: b2 :: _ => endLine b1 + 1 < startLine b2
     | _ => False
     end.
Proof.
  intros facts.
  assert (Hnd : NoDup (map lf_lineNumber facts)).
  { unfold facts. simpl.
    repeat (apply NoDup_cons; split;
            [rewrite ?elem_of_cons, elem_of_nil; lia|]).
    apply NoDup_nil_2. }
  split; [exact Hnd|].
  pose proof (createChangeBlocks_separated 17 facts "User A" Hnd 0%nat)
    as Hsep.
  destruct (createChangeBlocks 17 facts "User A") as [|b1 [|b2 rest]] eqn:E.
  - vm_compute in E. discriminate E.
  - vm_compute in E. discriminate E.
  - exact (Hsep b1 b2 eq_refl eq_refl).
Defined.

(** *** Block ids *)

Lemma nat_to_string_inj (i j : nat) :
  nat_to_string i = nat_to_string j -> i = j.
Proof.
  unfold nat_to_string. intros Heq.
  apply DecimalNat.Unsigned.to_uint_inj.
  pose proof (NilEmpty.usu (Nat.to_uint i)) as Hi.
  pose proof (NilEmpty.usu (Nat.to_uint j)) as Hj.
  rewrite Heq in Hi. congruence.
Qed.

Lemma new_blockId_inj (u : string) (now : Z) (i j : nat) :
  new_blockId u now i = new_blockId u now j -> i = j.
Proof.
  unfold new_blockId. intros Heq.
  apply (inj (String.app u)) in Heq.
  apply (inj (String.app "-block-")) in Heq.
  apply (inj (String.app (Z_to_string now))) in Heq.
  apply (inj (String.app "-")) in Heq.
  by apply nat_to_string_inj.
Qed.

(** The id of a block is made from its position. *)
Lemma group_fold_ids (u : string) (now : Z) (l : list LineFact) :
  forall (blocks : list Block) (cb : Block),
    (forall i b, (blocks ++ [cb]) !! i = Some b ->
                 blockId b = new_blockId u now i) ->
    exists B cb',
      fold_left (group_step u now) l (blocks, Some cb) = (B, Some cb')
      /\ forall i b, (B ++ [cb']) !! i = Some b ->
                     blockId b = new_blockId u now i.
Proof.
  induction l as [|f l IH]; intros blocks cb Hids.
  - exists blocks, cb. done.
  - cbn [fold_left]. unfold group_step at 2.
    destruct (lf_lineNumber f =? endLine cb + 1).
    + apply IH. intros i b Hb.
      destruct (decide (i < length blocks)%nat) as [Hlt|Hge].
      * rewrite lookup_app_l in Hb by done.
        apply Hids. by rewrite lookup_app_l.
      * rewrite lookup_app_r in Hb by lia.
        destruct (i - length blocks)%nat as [|n] eqn:En; [|done].
        simpl in Hb. injection Hb as <-. simpl.
        apply (Hids i cb). rewrite lookup_app_r by lia. by rewrite En.
    + apply IH. intros i b Hb.
      destruct (decide (i < length (blocks ++ [cb]))%nat) as [Hlt|Hge].
      * rewrite lookup_app_l in Hb by done. by apply Hids.
      * rewrite lookup_app_r in Hb by lia.
        destruct (i - length (blocks ++ [cb]))%nat as [|n] eqn:En; [|done].
        simpl in Hb. injection Hb as <-. simpl.
        f_equal. lia.
Qed.

Lemma createChangeBlocks_ids (now : Z) (facts : list LineFact) (u : string) :
  forall i b, createChangeBlocks now facts u !! i = Some b ->
              blockId b = new_blockId u now i.
Proof.
  unfold createChangeBlocks.
  destruct facts as [|f0 facts']; [done|].
  destruct (sort_by lf_lineNumber (f0 :: facts')) as [|x l]; [done|].
  simpl fold_left.
  destruct (group_fold_ids u now l [] (new_block u now 0 x))
    as (B & cb' & Hfold & Hids).
  { intros [|i] b Hb; [|done]. simpl in Hb. by injection Hb as <-. }
  simpl in Hfold. rewrite Hfold. exact Hids.
Qed.

Lemma createChangeBlocks_ids_NoDup (now : Z) (facts : list LineFact)
    (u : string) :
  NoDup (map blockId (createChangeBlocks now facts u)).
Proof.
  apply NoDup_alt. intros i j id Hi Hj.
  rewrite list_lookup_fmap in Hi, Hj.
  destruct (createChangeBlocks now facts u !! i) as [bi|] eqn:Ei; [|done].
  destruct (createChangeBlocks now facts u !! j) as [bj|] eqn:Ej; [|done].
  simpl in Hi, Hj. injection Hi as Hi. injection Hj as Hj.
  rewrite (createChangeBlocks_ids _ _ _ _ _ Ei) in Hi.
  rewrite (createChangeBlocks_ids _ _ _ _ _ Ej) in Hj.
  apply (new_blockId_inj u now). congruence.
Qed.

(** X13.  The id of the block at position [i] is made from the author,
    the clock reading and [i]; the blocks made by one call therefore have
    pairwise distinct ids. *)
Theorem createChangeBlocks_ids_distinct (now : Z) (facts : list LineFact)
    (u : string) :
  (forall i b, createChangeBlocks now facts u !! i = Some b ->
               blockId b = new_blockId u now i)
  /\ NoDup (map blockId (createChangeBlocks now facts u)).
Proof.
  split; [apply createChangeBlocks_ids|apply createChangeBlocks_ids_NoDup].
Qed.

Lemma create_fresh (id : string) (s e : Z) (u : string) (cs : list string)
    (k : ChangeKind) (blocks : list (string * BlockData)) :
  id ∉ JsMap.keys blocks ->
  ChangeBlock_create id s e u cs k blocks
  = blocks ++ [(id, mkBlockData s e u cs k)].
Proof.
  intros Hfresh. unfold ChangeBlock_create, ChangeBlock_remove.
  assert (Hget : JsMap.get id blocks = None).
  { destruct (JsMap.get id blocks) as [bd|] eqn:E; [|done].
    exfalso. apply Hfresh. apply member_of_get in E.
    apply list_elem_of_fmap. by exists (id, bd). }
  rewrite Hget. clear Hget.
  induction blocks as [|[id' bd'] blocks IH]; [done|].
  cbn [JsMap.keys map fst] in Hfresh.
  apply not_elem_of_cons in Hfresh as [Hne Hfresh].
  simpl. rewrite decide_False by done. f_equal. by apply IH.
Qed.

Lemma show_blocks_fresh (u : string) (bs : list Block) :
  forall shown,
    NoDup (JsMap.keys shown ++ map blockId bs) ->
    fold_left
      (fun acc block =>
         ChangeBlock_create (blockId block) (startLine block) (endLine block)
                            u (changes block) (changeType block) acc)
      bs shown
    = shown ++ map (shown_block u) bs.
Proof.
  induction bs as [|b bs IH]; intros shown Hnd; cbn [fold_left map].
  - by rewrite app_nil_r.
  - cbn [map] in Hnd.
    rewrite create_fresh.
    + rewrite IH.
      * by rewrite <- app_assoc.
      * unfold JsMap.keys. rewrite map_app. simpl.
        rewrite <- app_assoc. exact Hnd.
    + apply NoDup_app in Hnd as (_ & Hdisj & _).
      intros Hin. apply (Hdisj _ Hin). by left.
Qed.

(** X14.  After a push the receiving side holds exactly the blocks made
    from the pusher's facts, one entry per block and in block order,
    whatever it showed before: no block hides another. *)
Theorem push_blocks_shows_all (now : Z) (u : string)
    (changesMap : list (Z * LineFact)) (shown : list (string * BlockData)) :
  push_blocks now u changesMap shown
  = map (shown_block u)
        (createChangeBlocks now (JsMap.values changesMap) u).
Proof.
  unfold push_blocks, ChangeBlock_clear.
  rewrite show_blocks_fresh; [done|].
  simpl. apply createChangeBlocks_ids_NoDup.
Qed.

(** ** [ChangeBlock]: re-anchoring twice, and the parts of a split *)

Lemma jsmap_ext {K V : Type} `{EqDecision K} (m1 m2 : list (K * V)) :
  JsMap.keys m1 = JsMap.keys m2 -> NoDup (JsMap.keys m1) ->
  (forall k, JsMap.get k m1 = JsMap.get k m2) -> m1 = m2.
Proof.
  revert m2. induction m1 as [|[k v] m1 IH]; intros [|[k' v'] m2] Hk Hnd Hget;
    try done.
  cbn [JsMap.keys map fst] in Hk, Hnd. injection Hk as <- Hk.
  apply NoDup_cons in Hnd as [Hfresh Hnd].
  pose proof (Hget k) as Hkk. simpl in Hkk. rewrite !decide_True in Hkk by done.
  injection Hkk as <-. f_equal.
  apply IH; [done|done|]. intros k0.
  specialize (Hget k0). simpl in Hget.
  destruct (decide (k = k0)) as [<-|Hne]; [|done].
  assert (Hnone : forall m : list (K * V),
            k ∉ JsMap.keys m -> JsMap.get k m = None).
  { intros m Hm. destruct (JsMap.get k m) as [x|] eqn:E; [|done].
    exfalso. apply Hm. apply member_of_get in E.
    apply list_elem_of_fmap. by exists (k, x). }
  rewrite (Hnone m1) by exact Hfresh.
  rewrite (Hnone m2); [done|]. unfold JsMap.keys. by rewrite <- Hk.
Qed.

Lemma keys_reanchored (newLines : list string)
    (blocks : list (string * BlockData)) :
  JsMap.keys (map (fun e : string * BlockData =>
                     (e.1, block_reanchored newLines e.2)) blocks)
  = JsMap.keys blocks.
Proof. unfold JsMap.keys. rewrite map_map. by apply map_ext. Qed.

Lemma ChangeBlock_adjust_map (oldLines newLines : list string)
    (blocks : list (string * BlockData)) :
  NoDup (JsMap.keys blocks) ->
  ChangeBlock_adjustByContent oldLines newLines blocks
  = map (fun e : string * BlockData =>
           (e.1, block_reanchored newLines e.2)) blocks.
Proof.
  intros Hnd. apply jsmap_ext.
  - unfold ChangeBlock_adjustByContent.
    by rewrite fold_block_moves_keys, keys_reanchored.
  - unfold ChangeBlock_adjustByContent. by rewrite fold_block_moves_keys.
  - intros id.
    destruct (JsMap.get id blocks) as [bd|] eqn:Eg.
    + apply member_of_get in Eg as Hin.
      rewrite (ChangeBlock_adjust_get _ _ _ _ _ Hnd Hin).
      symmetry. apply get_of_member; [by rewrite keys_reanchored|].
      apply list_elem_of_fmap. by exists (id, bd).
    + assert (Hnone : forall m : list (string * BlockData),
                JsMap.keys m = JsMap.keys blocks -> JsMap.get id m = None).
      { intros m Hm. destruct (JsMap.get id m) as [x|] eqn:E; [|done].
        apply member_of_get in E.
        assert (Hk : id ∈ JsMap.keys blocks).
        { rewrite <- Hm. apply list_elem_of_fmap. by exists (id, x). }
        apply list_elem_of_fmap in Hk as ([id' bd'] & -> & Hin').
        apply (get_of_member _ _ _ Hnd) in Hin'. simpl in Eg. congruence. }
      rewrite !Hnone; [done|apply keys_reanchored|].
      unfold ChangeBlock_adjustByContent. apply fold_block_moves_keys.
Qed.

Lemma block_move_reanchored (newLines : list string) (id : string)
    (bd : BlockData) :
  block_move newLines (id, block_reanchored newLines bd) = None.
Proof.
  unfold block_move, block_reanchored, anchor_target.
  destruct (Js.findIndex (bd_changes bd !! 0%nat) newLines) as [j|] eqn:Ej;
    simpl; rewrite Ej; [|done].
  simpl. rewrite !bool_decide_eq_false_2; [done|intros H'; by apply H'..].
Qed.

(** X15.  Re-anchoring the blocks twice against the same text gives what
    re-anchoring once gives. *)
Theorem ChangeBlock_adjust_twice (old1 old2 newLines : list string)
    (blocks : list (string * BlockData)) :
  NoDup (JsMap.keys blocks) ->
  ChangeBlock_adjustByContent old2 newLines
    (ChangeBlock_adjustByContent old1 newLines blocks)
  = ChangeBlock_adjustByContent old1 newLines blocks.
Proof.
  intros Hnd. rewrite (ChangeBlock_adjust_map old1) by done.
  unfold ChangeBlock_adjustByContent at 1.
  assert (Hmoves :
    omap (block_move newLines)
         (map (fun e : string * BlockData =>
                 (e.1, block_reanchored newLines e.2)) blocks) = []).
  { clear Hnd. induction blocks as [|[id bd] blocks IH]; [done|].
    cbn [map]. rewrite omap_cons_eq. simpl fst. simpl snd.
    by rewrite block_move_reanchored. }
  by rewrite Hmoves.
Qed.

Lemma ChangeBlock_adjust_twice_witness :
  let blocks := [("b1"%string, mkBlockData 2 3 "User A" ["b"; "c"] added)] in
  ChangeBlock_adjustByContent [] ["x"; "a"; "b"; "c"]
    (ChangeBlock_adjustByContent [] ["x"; "a"; "b"; "c"] blocks)
  = [("b1"%string, mkBlockData 3 4 "User A" ["b"; "c"] added)].
Proof.
  intros blocks.
  rewrite (ChangeBlock_adjust_twice [] [] ["x"; "a"; "b"; "c"] blocks).
  - reflexivity.
  - apply NoDup_cons. split; [apply not_elem_of_nil|apply NoDup_nil_2].
Defined.

(** X16.  A split keeps the shape of blocks: when the block holds one
    content line per line it spans, so does each of the two parts. *)
Theorem split_parts_span (blockId : string) (splitLine : Z)
    (blocks blocks' : list (string * BlockData)) (bd : BlockData)
    (idA idB : string) :
  JsMap.get blockId blocks = Some bd ->
  blockData_spans bd ->
  ChangeBlock_split blockId splitLine blocks = (Some (idA, idB), blocks') ->
  exists bdA bdB,
    JsMap.get idA blocks' = Some bdA /\ JsMap.get idB blocks' = Some bdB
    /\ blockData_spans bdA /\ blockData_spans bdB
    /\ bd_endLine bdA + 1 = bd_startLine bdB.
Proof.
  intros Hget [Hse Hlen] Hsplit.
  unfold ChangeBlock_split in Hsplit. rewrite Hget in Hsplit.
  destruct (Z.leb_spec splitLine (bd_startLine bd)); [done|].
  destruct (Z.geb_spec splitLine (bd_endLine bd)); [done|].
  simpl in Hsplit. injection Hsplit as <- <- <-.
  destruct (part_ids_distinct blockId) as (H1 & H2 & H12).
  eexists _, _. split; [|split].
  - rewrite get_remove_ne by done.
    rewrite get_create_ne by done. apply get_create_eq.
  - rewrite get_remove_ne by done. apply get_create_eq.
  - unfold blockData_spans. simpl.
    rewrite length_take, length_drop. repeat split; lia.
Qed.

Lemma split_parts_span_witness :
  let blocks :=
    [("b"%string, mkBlockData 3 7 "User A" ["l3"; "l4"; "l5"; "l6"; "l7"] added)]
  in
  exists bdA bdB,
    JsMap.get ("b" +:+ "-part1") (ChangeBlock_split "b" 5 blocks).2
    = Some bdA
    /\ JsMap.get ("b" +:+ "-part2") (ChangeBlock_split "b" 5 blocks).2
       = Some bdB
    /\ blockData_spans bdA /\ blockData_spans bdB.
Proof.
  intros blocks.
  destruct (split_parts_span "b" 5 blocks (ChangeBlock_split "b" 5 blocks).2
              (mkBlockData 3 7 "User A" ["l3"; "l4"; "l5"; "l6"; "l7"] added)
              ("b" +:+ "-part1") ("b" +:+ "-part2"))
    as (bdA & bdB & HA & HB & HsA & HsB & _).
  - reflexivity.
  - split; simpl; lia.
  - reflexivity.
  - exists bdA, bdB. done.
Defined.

(** ** [Marker]: what every operation keeps *)

Lemma wf_restore (data : option (list MarkerData)) (st : Marker) :
  marker_wf st -> marker_wf (restorePersistentMarkers data st).
Proof.
  destruct data as [data|]; [|done]. simpl.
  revert st. induction data as [|d data IH]; intros st Hwf; [done|].
  cbn [fold_left]. apply IH. by apply wf_show.
Qed.

(** X17.  [persistentMarkers] stays keyed by start line.  On a marker
    whose map has distinct keys and holds every element under the
    element's own start line, [show], [consolidateAllMarkers],
    [restorePersistentMarkers] and [clearPersistentMarkers] all lead to a
    marker with the same property. *)
Theorem marker_wf_kept (st : Marker) :
  marker_wf st ->
  (forall lineNumber u k endLine,
      marker_wf (show lineNumber u k endLine st))
  /\ marker_wf (consolidateAllMarkers st)
  /\ (forall data, marker_wf (restorePersistentMarkers data st))
  /\ marker_wf (clearPersistentMarkers st).
Proof.
  intros Hwf. split; [intros; by apply wf_show|].
  split; [by apply wf_consolidateAllMarkers|].
  split; [intros; by apply wf_restore|].
  split; simpl; [apply NoDup_nil_2|done].
Qed.

Lemma marker_wf_kept_witness :
  marker_wf emptyMarker
  /\ marker_wf (show 4 "User A" added (Some 5)
                     (show 1 "User A" added (Some 2) emptyMarker)).
Proof.
  assert (H0 : marker_wf emptyMarker).
  { split; simpl; [apply NoDup_nil_2|done]. }
  split; [exact H0|].
  apply (proj1 (marker_wf_kept _
                  (proj1 (marker_wf_kept emptyMarker H0) 1 "User A" added
                         (Some 2)))).
Defined.

(** An element predicate that holds of every element [show] and
    [updateMarkerRange] write is kept by the consolidation pass. *)
Lemma consolidate_for_Forall (P : MarkerEl -> Prop) (fuel : nat) :
  (forall c n : MarkerEl,
      P c -> P n -> exEndOf c + 1 = exStartOf n ->
      P (mkMarkerEl (exStartOf c) (Some (exEndOf n))
                    (ds_rawUser c) (ds_changeType c))) ->
  forall markers i st,
    Forall P (elems st) ->
    Forall P (elems (consolidate_for fuel markers i st)).
Proof.
  intros Hmerge. induction fuel as [|fuel IH]; intros markers i st Hall;
    simpl; [done|].
  destruct (i <? length markers - 1)%nat; [|done].
  destruct (markers !! i) as [curr|]; [|done].
  destruct (markers !! S i) as [next|]; [|done].
  destruct (elems st !! curr) as [c|] eqn:Ec; [|done].
  destruct (elems st !! next) as [n|] eqn:En; [|done].
  destruct (bool_decide (ds_rawUser c = ds_rawUser n)); [|by apply IH].
  destruct (Z.eqb_spec (exEndOf c + 1) (exStartOf n)) as [Hadj|];
    [|by apply IH].
  cbn [andb]. apply IH. unfold updateMarkerRange. simpl. rewrite Ec. simpl.
  apply Forall_insert; [done|].
  apply Hmerge; [by eapply Forall_lookup_1..|done].
Qed.

Lemma show_search_range (els : list MarkerEl) (markers : list nat)
    (u : string) (k : ChangeKind) (cs ce : Z) (m : nat) (s e : Z) :
  Forall (fun el => ds_line el <= exEndOf el) els ->
  cs <= ce ->
  show_search els markers u k cs ce = Some (m, s, e) -> s <= e.
Proof.
  intros Hall Hc.
  induction markers as [|x markers IH]; simpl; [done|].
  destruct (els !! x) as [ex|] eqn:Ex; [|exact IH].
  pose proof (Forall_lookup_1 _ _ _ _ Hall Ex) as Hex. simpl in Hex.
  unfold exStartOf.
  destruct (_ && _); [|exact IH].
  destruct (Z.eqb_spec (exEndOf ex + 1) cs); [intros [= _ <- <-]; lia|].
  destruct (Z.eqb_spec (ce + 1) (ds_line ex)); [intros [= _ <- <-]; lia|].
  destruct (_ || _); [intros [= _ <- <-]; lia|exact IH].
Qed.

(** X18.  Ranges stay well-formed: if every element starts no later than
    it ends, the same holds after [show] of a candidate that starts no
    later than it ends, and after a consolidation pass. *)
Theorem ranges_valid_kept (st : Marker) :
  ranges_valid st ->
  (forall lineNumber u k endLine,
      lineNumber <= currentEndOf lineNumber endLine ->
      ranges_valid (show lineNumber u k endLine st))
  /\ ranges_valid (consolidateAllMarkers st).
Proof.
  intros Hall.
  assert (Hpass : forall st', ranges_valid st' ->
                              ranges_valid (consolidateAllMarkers st')).
  { intros st' H'. unfold consolidateAllMarkers.
    destruct (_ <? 2)%nat; [done|].
    apply consolidate_for_Forall; [|done].
    intros c n Hc Hn Hadj. unfold exStartOf, exEndOf in *. simpl in *. lia. }
  split; [|by apply Hpass].
  intros lineNumber u k endLine Hcand. unfold show.
  destruct (lineNumber <? 1); [done|].
  destruct (negb (editorFound st)); [done|].
  destruct (show_search _ _ _ _ _ _) as [[[m s] e]|] eqn:Es.
  - apply Hpass. unfold ranges_valid, updateMarkerRange.
    destruct (elems st !! m) as [el|]; [|done]. simpl.
    apply Forall_insert; [done|]. simpl.
    by eapply show_search_range.
  - unfold ranges_valid. simpl. apply Forall_app. split; [done|].
    by repeat constructor.
Qed.

Lemma ranges_valid_kept_witness :
  ranges_valid (show 3 "User A" added None
                     (show 1 "User A" added (Some 2) emptyMarker)).
Proof.
  assert (H0 : ranges_valid emptyMarker) by constructor.
  assert (H1 : ranges_valid (show 1 "User A" added (Some 2) emptyMarker)).
  { apply (proj1 (ranges_valid_kept emptyMarker H0)). simpl. lia. }
  apply (proj1 (ranges_valid_kept _ H1)). simpl. lia.
Defined.

Lemma endLines_set_show (lineNumber : Z) (u : string) (k : ChangeKind)
    (endLine : option Z) (st : Marker) :
  endLines_set st -> endLines_set (show lineNumber u k endLine st).
Proof.
  intros Hall. unfold show.
  destruct (lineNumber <? 1); [done|].
  destruct (negb (editorFound st)); [done|].
  destruct (show_search _ _ _ _ _ _) as [[[m s] e]|].
  - unfold consolidateAllMarkers.
    assert (Hupd : endLines_set (updateMarkerRange m s e st)).
    { unfold endLines_set, updateMarkerRange.
      destruct (elems st !! m) as [el|]; [|done]. simpl.
      apply Forall_insert; [done|]. by eexists. }
    destruct (_ <? 2)%nat; [done|].
    apply consolidate_for_Forall; [|done]. intros; by eexists.
  - unfold endLines_set. simpl. apply Forall_app. split; [done|].
    repeat constructor. by eexists.
Qed.

Lemma filter_none {A : Type} (f : A -> bool) (l : list A) :
  (forall x, x ∈ l -> f x = false) -> List.filter f l = [].
Proof.
  induction l as [|x l IH]; intros Hf; [done|]. simpl.
  rewrite (Hf x) by (by left). apply IH. intros y Hy. apply Hf. by right.
Qed.

(** X19.  The deferred [consolidateMarkersIntoRanges] does nothing to the
    markers [show] makes.  [show] writes [dataset.endLine] on every
    element it creates or updates, the deferred pass only considers
    markers without it: on a marker whose elements all have an end line
    (a property [show] keeps) the pass leaves markers and gutter icons
    untouched. *)
Theorem consolidateMarkersIntoRanges_inert (st : Marker) :
  endLines_set st ->
  (forall lineNumber u k endLine,
      endLines_set (show lineNumber u k endLine st))
  /\ (forall u k g, consolidateMarkersIntoRanges u k st g = (st, g)).
Proof.
  intros Hall. split; [intros; by apply endLines_set_show|].
  intros u k g. unfold consolidateMarkersIntoRanges.
  rewrite filter_none; [done|].
  intros [key m] _. simpl.
  destruct (elems st !! m) as [el|] eqn:Eel; [|done].
  pose proof (Forall_lookup_1 _ _ _ _ Hall Eel) as [e He]. by rewrite He.
Qed.

Lemma consolidateMarkersIntoRanges_inert_witness :
  let st :=
    show 2 "User A" added None (show 1 "User A" added None emptyMarker) in
  consolidateMarkersIntoRanges "User A" added st (mkGutterIcons [] [])
  = (st, mkGutterIcons [] []).
Proof.
  intros st.
  assert (H0 : endLines_set emptyMarker) by constructor.
  assert (H1 : endLines_set (show 1 "User A" added None emptyMarker))
    by apply (proj1 (consolidateMarkersIntoRanges_inert _ H0)).
  assert (H2 : endLines_set st)
    by apply (proj1 (consolidateMarkersIntoRanges_inert _ H1)).
  apply (proj2 (consolidateMarkersIntoRanges_inert st H2)).
Defined.

(** ** [Marker.show]: two calls on an empty side *)

Lemma show_on_empty (s : Z) (u : string) (k : ChangeKind)
    (endLine : option Z) :
  1 <= s ->
  show s u k endLine emptyMarker
  = mkMarker true [mkMarkerEl s (Some (currentEndOf s endLine)) u k]
             [(s, 0%nat)].
Proof.
  intros Hs. unfold show. destruct (Z.ltb_spec s 1); [lia|]. reflexivity.
Qed.

(** X20.  Adjacency closure.  Two touching ranges [a..b] and [b+1..c] of
    one author and kind, shown on an empty side in either order, leave
    exactly the range [a..c]. *)
Theorem show_adjacent_either_order (a b c : Z) (u : string)
    (k : ChangeKind) :
  1 <= a <= b -> b < c ->
  ranges (show (b + 1) u k (Some c) (show a u k (Some b) emptyMarker))
  = [(a, c, u, k)]
  /\ ranges (show a u k (Some b) (show (b + 1) u k (Some c) emptyMarker))
     = [(a, c, u, k)].
Proof.
  intros Hab Hbc.
  assert (Hu : bool_decide (u = u) = true) by (by apply bool_decide_eq_true_2).
  assert (Hk : bool_decide (k = k) = true) by (by apply bool_decide_eq_true_2).
  assert (Hb : currentEndOf a (Some b) = b).
  { unfold currentEndOf. destruct (Z.eqb_spec b 0); [lia|done]. }
  assert (Hc : currentEndOf (b + 1) (Some c) = c).
  { unfold currentEndOf. destruct (Z.eqb_spec c 0); [lia|done]. }
  rewrite !show_on_empty by lia. rewrite Hb, Hc.
  split.
  - unfold show. destruct (Z.ltb_spec (b + 1) 1); [lia|].
    rewrite Hc. simpl. rewrite Hu, Hk. simpl.
    rewrite Z.eqb_refl. unfold updateMarkerRange. simpl.
    rewrite decide_True by done. simpl. reflexivity.
  - unfold show. destruct (Z.ltb_spec a 1); [lia|].
    rewrite Hb. simpl. rewrite Hu, Hk. simpl.
    unfold exEndOf, exStartOf. simpl.
    destruct (Z.eqb_spec (c + 1) a); [lia|].
    rewrite Z.eqb_refl. unfold updateMarkerRange. simpl.
    destruct (decide (b + 1 = b + 1)); [|done]. simpl. reflexivity.
Qed.

Lemma show_adjacent_either_order_witness :
  ranges (show 3 "User A" added (Some 4)
               (show 1 "User A" added (Some 2) emptyMarker))
  = [(1, 4, "User A", added)].
Proof.
  apply (proj1 (show_adjacent_either_order 1 2 4 "User A" added
                  ltac:(lia) ltac:(lia))).
Defined.

(** X21.  One range per start line.  When [show] stores a new range (no
    held range of the candidate's author and kind matches a case) on a
    line where a range already starts, the new range takes that range's
    place in the map: the start line holds the new range, the range that
    started there is no longer held, the map has the keys it had and every
    other entry is as before. *)
Theorem show_same_start_displaces (st : Marker) (s : Z)
    (endLine : option Z) (ce : Z) (u : string) (k : ChangeKind)
    (old : nat) :
  marker_wf st -> editorFound st = true -> 1 <= s ->
  candidate_end s endLine ce ->
  JsMap.get s (persistentMarkers st) = Some old ->
  (forall marker ex,
      marker ∈ JsMap.values (persistentMarkers st) ->
      elems st !! marker = Some ex ->
      ~ merge_case ex u k s ce) ->
  let st' := show s u k endLine st in
  held_as (length (elems st)) s ce u k st'
  /\ (old ∉ JsMap.values (persistentMarkers st'))
  /\ JsMap.keys (persistentMarkers st') = JsMap.keys (persistentMarkers st)
  /\ forall key, key <> s ->
       JsMap.get key (persistentMarkers st')
       = JsMap.get key (persistentMarkers st).
Proof.
  intros Hwf Hed Hs Hce Hold Hno st'.
  apply candidate_end_currentEndOf in Hce.
  assert (Hst' : st' = {| editorFound := editorFound st;
                          elems := elems st ++ [mkMarkerEl s (Some ce) u k];
                          persistentMarkers :=
                            JsMap.set s (length (elems st))
                                      (persistentMarkers st) |}).
  { unfold st', show. destruct (Z.ltb_spec s 1); [lia|].
    rewrite Hed, Hce. cbn [negb].
    by rewrite (show_search_none _ _ _ _ _ _ Hno). }
  rewrite Hst'. cbn [persistentMarkers elems].
  destruct Hwf as [Hnd Hheld].
  split; [|split; [|split]].
  - split; cbn [persistentMarkers elems].
    + apply get_set_eq.
    + rewrite lookup_app_r by done. by rewrite Nat.sub_diag.
  - intros Hin. apply list_elem_of_fmap in Hin as ([key x] & Hx & Hin).
    simpl in Hx. subst x.
    apply get_of_member in Hin; [|by apply keys_set_NoDup].
    destruct (Hheld s old Hold) as (el & Hel & Hline).
    destruct (decide (s = key)) as [<-|Hne].
    + rewrite get_set_eq in Hin. injection Hin as Hin.
      apply lookup_lt_Some in Hel. lia.
    + rewrite get_set_ne in Hin by done.
      destruct (Hheld key old Hin) as (el' & Hel' & Hline'). congruence.
  - by eapply keys_set_present.
  - intros key Hne. by rewrite get_set_ne.
Qed.

Lemma show_same_start_displaces_witness :
  let st := show 1 "User A" added (Some 2) emptyMarker in
  let st' := show 1 "User A" edited (Some 3) st in
  held_as 1%nat 1 3 "User A" edited st'
  /\ 0%nat ∉ JsMap.values (persistentMarkers st').
Proof.
  intros st st'.
  assert (Hwf : marker_wf st).
  { apply wf_show. split; [apply NoDup_nil_2|]. intros key m Hget.
    discriminate Hget. }
  assert (Hce : candidate_end 1 (Some 3) 3) by (left; split; [lia|done]).
  destruct (show_same_start_displaces st 1 (Some 3) 3 "User A" edited 0%nat
              Hwf eq_refl ltac:(lia) Hce eq_refl) as (Hnew & Hgone & _).
  - intros marker ex Hin Hex ((_ & Hk) & _).
    apply list_elem_of_singleton in Hin. subst marker.
    injection Hex as <-. discriminate Hk.
  - split; [exact Hnew|exact Hgone].
Defined.

(** ** [GutterIcons]: [hide] and [show] *)

Lemma get_delete_None {K V : Type} `{EqDecision K} (m : list (K * V))
    (k k' : K) :
  JsMap.get k' m = None -> JsMap.get k' (JsMap.delete k m) = None.
Proof.
  intros Hnone. destruct (decide (k = k')) as [->|Hne].
  - apply get_delete_eq.
  - by rewrite get_delete_ne.
Qed.

Lemma hide_visit_None (l : Z) (m : list (IconKey * nat)) (k0 key : IconKey) :
  JsMap.get key m = None -> JsMap.get key (hide_visit l m k0) = None.
Proof.
  intros Hnone. unfold hide_visit.
  destruct (JsMap.has k0 m); [|done].
  destruct k0 as [n|s e|s e]; [done| |];
    destruct (covers _ l); try done; by repeat apply get_delete_None.
Qed.

Lemma hide_visit_other (l : Z) (m : list (IconKey * nat)) (k0 key : IconKey) :
  covers key l = false ->
  JsMap.get key (hide_visit l m k0) = JsMap.get key m.
Proof.
  intros Hkey. unfold hide_visit.
  destruct (JsMap.has k0 m); [|done].
  destruct k0 as [n|s e|s e]; [done| |].
  - destruct (covers (KRange s e) l) eqn:Hc; [|done].
    rewrite !get_delete_ne; [done| |]; intros <-; simpl in *; congruence.
  - destruct (covers (KRangeEnd s e) l) eqn:Hc; [|done].
    rewrite get_delete_ne; [done|]. intros <-. congruence.
Qed.

Lemma hide_visit_self (l : Z) (m : list (IconKey * nat)) (k0 : IconKey) :
  (forall n, k0 <> KLine n) -> covers k0 l = true ->
  JsMap.get k0 (hide_visit l m k0) = None.
Proof.
  intros Hrange Hc. unfold hide_visit, JsMap.has.
  destruct (JsMap.get k0 m) as [icon|] eqn:Eg; [|done].
  destruct k0 as [n|s e|s e]; [by destruct (Hrange n)| |]; rewrite Hc.
  - apply get_delete_None, get_delete_eq.
  - apply get_delete_eq.
Qed.

Lemma fold_hide_None (l : Z) (ks : list IconKey) (key : IconKey) :
  forall m, JsMap.get key m = None ->
            JsMap.get key (fold_left (hide_visit l) ks m) = None.
Proof.
  induction ks as [|k0 ks IH]; intros m Hm; cbn [fold_left]; [done|].
  apply IH. by apply hide_visit_None.
Qed.

Lemma fold_hide_other (l : Z) (ks : list IconKey) (key : IconKey) :
  covers key l = false ->
  forall m, JsMap.get key (fold_left (hide_visit l) ks m) = JsMap.get key m.
Proof.
  intros Hkey. induction ks as [|k0 ks IH]; intros m; cbn [fold_left]; [done|].
  rewrite IH. by apply hide_visit_other.
Qed.

Lemma fold_hide_covered (l : Z) (ks : list IconKey) (key : IconKey) :
  (forall n, key <> KLine n) -> covers key l = true -> key ∈ ks ->
  forall m, JsMap.get key (fold_left (hide_visit l) ks m) = None.
Proof.
  intros Hrange Hc. induction ks as [|k0 ks IH]; intros Hin m;
    [by inversion Hin|].
  cbn [fold_left]. apply elem_of_cons in Hin as [<-|Hin].
  - apply fold_hide_None. by apply hide_visit_self.
  - by apply IH.
Qed.

Lemma hide_get (l : Z) (g : GutterIcons) (key : IconKey) :
  JsMap.get key (icons (GutterIcons_hide l g))
  = if covers key l then None else JsMap.get key (icons g).
Proof.
  unfold GutterIcons_hide. cbn [icons].
  set (m1 := match JsMap.get (KLine l) (icons g) with
             | Some _ => JsMap.delete (KLine l) (icons g)
             | None => icons g
             end).
  assert (Hline : JsMap.get (KLine l) m1 = None).
  { unfold m1. destruct (JsMap.get (KLine l) (icons g)) eqn:E;
      [apply get_delete_eq|done]. }
  assert (Hrest : forall k, k <> KLine l ->
                            JsMap.get k m1 = JsMap.get k (icons g)).
  { intros k Hk. unfold m1. destruct (JsMap.get (KLine l) (icons g));
      [by apply get_delete_ne|done]. }
  destruct (covers key l) eqn:Hc.
  - destruct key as [n|s e|s e].
    + simpl in Hc. apply bool_decide_eq_true_1 in Hc. subst n.
      by apply fold_hide_None.
    + destruct (JsMap.get (KRange s e) m1) eqn:Eg.
      * apply fold_hide_covered; [done|done|].
        apply elem_keys_get. by eexists.
      * by apply fold_hide_None.
    + destruct (JsMap.get (KRangeEnd s e) m1) eqn:Eg.
      * apply fold_hide_covered; [done|done|].
        apply elem_keys_get. by eexists.
      * by apply fold_hide_None.
  - rewrite fold_hide_other by done. apply Hrest.
    intros ->. simpl in Hc. by rewrite bool_decide_eq_true_2 in Hc.
Qed.

(** X22.  [hide(lineNumber)] removes the line's own icon and both icons
    of every range whose bounds contain the line, and leaves every other
    icon where it is. *)
Theorem GutterIcons_hide_get (l : Z) (g : GutterIcons) :
  JsMap.get (KLine l) (icons (GutterIcons_hide l g)) = None
  /\ (forall s e,
         (range_bounds s e).1 <= l <= (range_bounds s e).2 ->
         JsMap.get (KRange s e) (icons (GutterIcons_hide l g)) = None
         /\ JsMap.get (KRangeEnd s e) (icons (GutterIcons_hide l g)) = None)
  /\ (forall key,
         covers key l = false ->
         JsMap.get key (icons (GutterIcons_hide l g))
         = JsMap.get key (icons g)).
Proof.
  split; [|split].
  - rewrite hide_get. simpl. by rewrite bool_decide_eq_true_2.
  - intros s e Hb.
    assert (Hc : covers (KRange s e) l = true).
    { simpl. destruct (range_bounds s e) as [a b]. simpl in Hb.
      apply andb_true_intro. split; [apply Z.geb_le|apply Z.leb_le]; lia. }
    split; rewrite hide_get; [by rewrite Hc|].
    change (covers (KRangeEnd s e) l) with (covers (KRange s e) l).
    by rewrite Hc.
  - intros key Hkey. by rewrite hide_get, Hkey.
Qed.

Lemma hide_iconEls (l : Z) (g : GutterIcons) :
  iconEls (GutterIcons_hide l g) = iconEls g.
Proof. reflexivity. Qed.

Lemma fold_hide_lines (lines : list Z) (key : IconKey) :
  forall g,
    iconEls (fold_left (fun acc i => GutterIcons_hide i acc) lines g)
    = iconEls g
    /\ JsMap.get key
         (icons (fold_left (fun acc i => GutterIcons_hide i acc) lines g))
       = if existsb (covers key) lines then None
         else JsMap.get key (icons g).
Proof.
  induction lines as [|x lines IH]; intros g; cbn [fold_left existsb];
    [done|].
  destruct (IH (GutterIcons_hide x g)) as [Hels Hget].
  split; [by rewrite Hels|].
  rewrite Hget, hide_get.
  destruct (covers key x); simpl; [by destruct (existsb _ _)|done].
Qed.

(** X23.  [show] of a single line (line number at least 1, no end line):
    the line holds the new icon, every icon that covered the line before
    (its old icon, the icons of a range containing it) is gone, and the
    other icons are untouched. *)
Theorem GutterIcons_show_line (l : Z) (u : string) (k : ChangeKind)
    (g : GutterIcons) :
  1 <= l ->
  let g' := GutterIcons_show l u k None g in
  exists icon,
    JsMap.get (KLine l) (icons g') = Some icon
    /\ iconEls g' !! icon = Some (mkIconEl l None u k)
    /\ forall key, key <> KLine l ->
         JsMap.get key (icons g')
         = if covers key l then None else JsMap.get key (icons g).
Proof.
  intros Hl g'. subst g'. unfold GutterIcons_show.
  destruct (Z.ltb_spec l 1); [lia|]. cbn [icons iconEls].
  exists (length (iconEls g)). split; [apply get_set_eq|]. split.
  - rewrite hide_iconEls, lookup_app_r by done. by rewrite Nat.sub_diag.
  - intros key Hkey. rewrite get_set_ne by done. apply hide_get.
Qed.

Lemma GutterIcons_show_line_witness :
  let g :=
    GutterIcons_show 2 "User A" added (Some 4) (mkGutterIcons [] []) in
  JsMap.get (KRange 2 4) (icons g) = Some 0%nat
  /\ JsMap.get (KRange 2 4)
       (icons (GutterIcons_show 3 "User B" edited None g)) = None.
Proof.
  intros g. split; [reflexivity|].
  destruct (GutterIcons_show_line 3 "User B" edited g ltac:(lia))
    as (icon & _ & _ & Hrest).
  rewrite (Hrest (KRange 2 4)) by discriminate. reflexivity.
Defined.

(** X24.  [show] of a range [s..e] with [1 <= s <= e]: the range key
    holds the new icon, for [s < e] the end key holds the end icon on line
    [e], every other icon that covered a line of the range is gone, and
    the icons covering no line of the range are untouched. *)
Theorem GutterIcons_show_range (s e : Z) (u : string) (k : ChangeKind)
    (g : GutterIcons) :
  1 <= s <= e ->
  let g' := GutterIcons_show s u k (Some e) g in
  (exists icon,
      JsMap.get (KRange s e) (icons g') = Some icon
      /\ iconEls g' !! icon = Some (mkIconEl s (Some e) u k))
  /\ (s < e ->
      exists endIcon,
        JsMap.get (KRangeEnd s e) (icons g') = Some endIcon
        /\ iconEls g' !! endIcon = Some (mkIconEl e None u k))
  /\ forall key, key <> KRange s e -> key <> KRangeEnd s e ->
       JsMap.get key (icons g')
       = if existsb (covers key) (lines_from_to s e) then None
         else JsMap.get key (icons g).
Proof.
  intros Hse g'. subst g'. unfold GutterIcons_show.
  destruct (Z.ltb_spec s 1); [lia|].
  destruct (Z.eqb_spec e 0); [lia|].
  set (g1 := fold_left (fun acc i => GutterIcons_hide i acc)
                       (lines_from_to s e) g).
  assert (Hels : iconEls g1 = iconEls g)
    by apply (proj1 (fold_hide_lines _ (KLine 0) g)).
  destruct (Z.gtb_spec e s) as [Hgt|Hle]; cbn [icons iconEls].
  - split; [|split].
    + exists (length (iconEls g1)). split.
      * rewrite get_set_ne by discriminate. apply get_set_eq.
      * rewrite lookup_app_l by (rewrite length_app; simpl; lia).
        rewrite lookup_app_r by done. by rewrite Nat.sub_diag.
    + intros _. exists (length (iconEls g1 ++ [mkIconEl s (Some e) u k])).
      split; [apply get_set_eq|].
      rewrite lookup_app_r by done. by rewrite Nat.sub_diag.
    + intros key H1 H2. rewrite !get_set_ne by done.
      apply (proj2 (fold_hide_lines _ key g)).
  - split; [|split].
    + exists (length (iconEls g1)). split; [apply get_set_eq|].
      rewrite lookup_app_r by done. by rewrite Nat.sub_diag.
    + intros Hlt. lia.
    + intros key H1 H2. rewrite get_set_ne by done.
      apply (proj2 (fold_hide_lines _ key g)).
Qed.

Lemma GutterIcons_show_range_witness :
  let g := GutterIcons_show 3 "User B" edited None (mkGutterIcons [] []) in
  JsMap.get (KLine 3) (icons g) = Some 0%nat
  /\ JsMap.get (KLine 3)
       (icons (GutterIcons_show 2 "User A" added (Some 4) g)) = None.
Proof.
  intros g. split; [reflexivity|].
  destruct (GutterIcons_show_range 2 4 "User A" added g ltac:(lia))
    as (_ & _ & Hrest).
  rewrite (Hrest (KLine 3)) by discriminate. reflexivity.
Defined.

(** X25.  An icon of a range stops re-anchoring from returning.  After
    [show] of a range [s..e], every [adjustByContent] in which some icon
    is to move raises a [SyntaxError]: [updatePositions()] meets the key of
    the range.  The moves are applied by then, and every icon of a range
    is still under its key in the state left behind. *)
Theorem GutterIcons_adjust_raises_on_range (s e : Z) (u : string)
    (k : ChangeKind) (g : GutterIcons) (oldLines newLines : list string) :
  1 <= s -> e <> 0 ->
  let g1 := GutterIcons_show s u k (Some e) g in
  move_pending oldLines newLines (icons g1) ->
  let out := GutterIcons_adjustByContent oldLines newLines g1 in
  out.1 = SyntaxError
  /\ is_Some (JsMap.get (KRange s e) (icons out.2))
  /\ forall key, is_range_key key ->
       JsMap.get key (icons out.2) = JsMap.get key (icons g1).
Proof.
  intros Hs He g1 Hmv out.
  assert (Hout : icons out.2
                 = icons (fold_left apply_icon_move
                            (omap (icon_move oldLines newLines) (icons g1))
                            g1)).
  { unfold out, GutterIcons_adjustByContent. cbv zeta.
    by destruct (0 <? _)%nat. }
  assert (Hheld : is_Some (JsMap.get (KRange s e) (icons g1))).
  { unfold g1, GutterIcons_show.
    destruct (Z.ltb_spec s 1); [lia|].
    destruct (Z.eqb_spec e 0); [lia|]. cbv zeta.
    destruct (e >? s); cbn [icons].
    - rewrite get_set_ne by discriminate. rewrite get_set_eq. by eexists.
    - rewrite get_set_eq. by eexists. }
  split; [|split].
  - apply GutterIcons_adjust_completion. split; [exact Hmv|].
    destruct Hheld as [icon Hicon].
    exists (KRange s e), icon. split; [by apply member_of_get|exact I].
  - rewrite Hout, fold_icon_moves_range by exact I. exact Hheld.
  - intros key Hr. rewrite Hout. by apply fold_icon_moves_range.
Qed.

Lemma GutterIcons_adjust_raises_on_range_witness :
  let g := mkGutterIcons [mkIconEl 4 None "User B" edited] [(KLine 4, 0%nat)] in
  let g1 := GutterIcons_show 1 "User A" added (Some 2) g in
  let out :=
    GutterIcons_adjustByContent ["a"; "b"; "c"; "d"] ["x"; "a"; "b"; "c"; "d"]
                                g1 in
  out.1 = SyntaxError
  /\ JsMap.get (KLine 5) (icons out.2) = Some 0%nat
  /\ is_Some (JsMap.get (KRange 1 2) (icons out.2)).
Proof.
  intros g g1 out.
  assert (Hmv : move_pending ["a"; "b"; "c"; "d"] ["x"; "a"; "b"; "c"; "d"]
                             (icons g1)).
  { exists (KLine 4), 0%nat. split; [by left|discriminate]. }
  destruct (GutterIcons_adjust_raises_on_range 1 2 "User A" added g
              ["a"; "b"; "c"; "d"] ["x"; "a"; "b"; "c"; "d"]
              ltac:(lia) ltac:(lia) Hmv) as (Hraise & Hheld & _).
  split; [exact Hraise|]. split; [reflexivity|exact Hheld].
Defined.

(** ** Held ranges never change hands *)

Lemma updateMarkerRange_owner (m : nat) (s e : Z) (st : Marker)
    (id : nat) (el : MarkerEl) :
  elems st !! id = Some el ->
  exists el', elems (updateMarkerRange m s e st) !! id = Some el'
              /\ ds_rawUser el' = ds_rawUser el
              /\ ds_changeType el' = ds_changeType el.
Proof.
  intros Hel. unfold updateMarkerRange.
  destruct (elems st !! m) as [x|] eqn:Ex; [|by exists el]. simpl.
  destruct (decide (m = id)) as [->|Hne].
  - rewrite list_lookup_insert_eq by (by eapply lookup_lt_Some).
    assert (x = el) by congruence. subst x. by eexists.
  - rewrite list_lookup_insert_ne by done. by exists el.
Qed.

Lemma consolidate_for_owner (fuel : nat) :
  forall markers i st id el,
    elems st !! id = Some el ->
    exists el', elems (consolidate_for fuel markers i st) !! id = Some el'
                /\ ds_rawUser el' = ds_rawUser el
                /\ ds_changeType el' = ds_changeType el.
Proof.
  induction fuel as [|fuel IH]; intros markers i st id el Hel; simpl;
    [by exists el|].
  destruct (i <? length markers - 1)%nat; [|by exists el].
  destruct (markers !! i) as [curr|]; [|by exists el].
  destruct (markers !! S i) as [next|]; [|by exists el].
  destruct (elems st !! curr) as [c|] eqn:Ec; [|by exists el].
  destruct (elems st !! next) as [n|] eqn:En; [|by exists el].
  destruct (_ && _); [|by apply IH].
  set (st1 := {| editorFound := editorFound st; elems := elems st;
                 persistentMarkers :=
                   JsMap.delete (exStartOf n) (persistentMarkers st) |}).
  destruct (updateMarkerRange_owner curr (exStartOf c) (exEndOf n) st1 id el
              Hel) as (el1 & Hel1 & Hu1 & Hk1).
  destruct (IH (list_delete (S i) markers) i _ id el1 Hel1)
    as (el2 & Hel2 & Hu2 & Hk2).
  exists el2. split; [done|]. split; congruence.
Qed.

Lemma consolidateAllMarkers_owner (st : Marker) (id : nat) (el : MarkerEl) :
  elems st !! id = Some el ->
  exists el', elems (consolidateAllMarkers st) !! id = Some el'
              /\ ds_rawUser el' = ds_rawUser el
              /\ ds_changeType el' = ds_changeType el.
Proof.
  intros Hel. unfold consolidateAllMarkers.
  destruct (_ <? 2)%nat; [by exists el|]. by apply consolidate_for_owner.
Qed.

(** X26.  Held ranges never change hands.  An element held in the map
    after a consolidation pass was held before it, with the same author
    and change kind; an element held after [show] was held before the
    call, with the same author and change kind, or is the element the call
    created for the candidate. *)
Theorem held_owner_kept (st : Marker) (id : nat) (el' : MarkerEl) :
  (id ∈ JsMap.values (persistentMarkers (consolidateAllMarkers st)) ->
   elems (consolidateAllMarkers st) !! id = Some el' ->
   id ∈ JsMap.values (persistentMarkers st)
   /\ exists el, elems st !! id = Some el
                 /\ ds_rawUser el' = ds_rawUser el
                 /\ ds_changeType el' = ds_changeType el)
  /\ (forall lineNumber u k endLine,
         id ∈ JsMap.values
                (persistentMarkers (show lineNumber u k endLine st)) ->
         elems (show lineNumber u k endLine st) !! id = Some el' ->
         (id ∈ JsMap.values (persistentMarkers st)
          /\ exists el, elems st !! id = Some el
                        /\ ds_rawUser el' = ds_rawUser el
                        /\ ds_changeType el' = ds_changeType el)
         \/ (id = length (elems st)
             /\ ds_rawUser el' = u /\ ds_changeType el' = k)).
Proof.
  assert (Hpass : forall st0 x,
            elems (consolidateAllMarkers st0) !! id = Some x ->
            exists el, elems st0 !! id = Some el
                       /\ ds_rawUser x = ds_rawUser el
                       /\ ds_changeType x = ds_changeType el).
  { intros st0 x Hx.
    pose proof (lookup_lt_Some _ _ _ Hx) as Hlt.
    rewrite consolidateAllMarkers_length in Hlt.
    apply lookup_lt_is_Some in Hlt as [el Hel]. exists el. split; [done|].
    destruct (consolidateAllMarkers_owner st0 id el Hel)
      as (x' & Hx' & Hu & Hk).
    assert (x' = x) by congruence. by subst x'. }
  split.
  - intros Hin Hel'. split; [by apply consolidateAllMarkers_values|].
    by apply Hpass.
  - intros lineNumber u k endLine. unfold show.
    destruct (lineNumber <? 1).
    { intros Hin Hel'. left. split; [done|]. by exists el'. }
    destruct (negb (editorFound st)).
    { intros Hin Hel'. left. split; [done|]. by exists el'. }
    destruct (show_search _ _ _ _ _ _) as [[[m s] e]|] eqn:Esearch.
    + intros Hin Hel'. left.
      apply show_search_member in Esearch.
      apply consolidateAllMarkers_values in Hin.
      apply updateMarkerRange_values in Hin.
      split; [by destruct Hin as [->|Hin]|].
      destruct (Hpass _ _ Hel') as (el1 & Hel1 & Hu1 & Hk1).
      pose proof (lookup_lt_Some _ _ _ Hel1) as Hlt.
      rewrite updateMarkerRange_length in Hlt.
      apply lookup_lt_is_Some in Hlt as [el Hel]. exists el. split; [done|].
      destruct (updateMarkerRange_owner m s e st id el Hel)
        as (x & Hx & Hu & Hk).
      assert (x = el1) by congruence. subst x. split; congruence.
    + cbn [persistentMarkers elems]. intros Hin Hel'.
      destruct (decide (id < length (elems st))%nat) as [Hlt|Hge].
      * left. rewrite lookup_app_l in Hel' by done.
        apply values_set in Hin as [->|Hin]; [lia|].
        split; [done|]. by exists el'.
      * right. pose proof (lookup_lt_Some _ _ _ Hel') as Hlt.
        rewrite length_app in Hlt. simpl in Hlt.
        assert (id = length (elems st)) by lia. subst id.
        rewrite lookup_app_r in Hel' by done.
        rewrite Nat.sub_diag in Hel'. injection Hel' as <-. done.
Qed.

Lemma held_owner_kept_witness :
  let st := show 1 "User A" added (Some 2) emptyMarker in
  0%nat ∈ JsMap.values (persistentMarkers st)
  /\ exists el,
       elems st !! 0%nat = Some el
       /\ ds_rawUser el = "User A" /\ ds_changeType el = added.
Proof.
  intros st.
  destruct (proj2 (held_owner_kept st 0%nat
                     (mkMarkerEl 1 (Some 4) "User A" added))
              3 "User A" added (Some 4))
    as [(Hheld & el & Hel & Hu & Hk)|(Hid & _)].
  - by left.
  - reflexivity.
  - split; [exact Hheld|]. exists el.
    split; [exact Hel|]. split; [by rewrite <- Hu|by rewrite <- Hk].
  - discriminate Hid.
Defined.

(** ** A range event and the facts of other lines *)

Lemma run_lines_within (run : list Recent) (a b r : Recent) :
  is_consecutive run -> (2 <= length run)%nat ->
  head run = Some a -> last run = Some b -> r ∈ run ->
  rc_line a <= rc_line r <= rc_line b.
Proof.
  intros Hc Hlen Ha Hb Hr.
  destruct (consecutive_ends run Hc Hlen)
    as (a' & b' & Ha' & Hb' & _ & Hend & Hlines).
  assert (a' = a) by congruence. assert (b' = b) by congruence. subst a' b'.
  apply list_elem_of_lookup in Hr as [i Hi].
  pose proof (Hlines _ _ Hi). pose proof (lookup_lt_Some _ _ _ Hi). lia.
Qed.

(** X27.  A range event of the edit detector records facts for the lines
    of the range only: the fact of every line outside [a..b] is what it
    was before the event. *)
Theorem range_event_facts_outside (ts now line : Z)
    (content baseline u : string) (s s' : Side) (a b : Z) :
  detectRangeEdit ts now line content baseline u s = (IsRange a b, s') ->
  forall l, l < a \/ b < l ->
            JsMap.get l (facts s') = JsMap.get l (facts s).
Proof.
  intros Hdet l Hl.
  set (window :=
         prune now (recentEdits s
                    ++ [mkRecent line
                          (Js.line_or_empty (Js.split content) line) ts])).
  set (run := consecutive_of (sort_by rc_line window)).
  destruct (Nat.leb_spec 2 (length run)) as [Hlen|Hshort].
  - destruct (detectRangeEdit_range ts now line content baseline u s Hlen)
      as (ra & rb & s1 & Ha & Hb & Hdet1 & _ & Hfacts).
    rewrite Hdet in Hdet1. injection Hdet1 as -> -> <-.
    rewrite Hfacts. apply record_facts_other.
    intros Hin. apply list_elem_of_fmap in Hin as (r & -> & Hr).
    pose proof (run_lines_within _ ra rb r
                  (consecutive_of_consecutive _) Hlen Ha Hb Hr).
    lia.
  - rewrite (detectRangeEdit_single ts now line content baseline u s)
      in Hdet by done.
    discriminate Hdet.
Qed.

Lemma range_event_facts_outside_witness :
  let content := Js.join ["a"; "b"; "c"] in
  let s0 :=
    mkSide [] [mkRecent 2 "b" 0]
           [(7, mkLineFact added "User A" 7 "g" 0)] [] emptyMarker in
  JsMap.get 7
    (facts (detectRangeEdit 100 100 3 content content "User A" s0).2)
  = Some (mkLineFact added "User A" 7 "g" 0).
Proof.
  intros content s0.
  rewrite (range_event_facts_outside 100 100 3 content content "User A" s0
             (detectRangeEdit 100 100 3 content content "User A" s0).2 2 3).
  - reflexivity.
  - reflexivity.
  - lia.
Defined.
